(** * css_html_analyzer: selector decomposition and usage matching

  A shallow embedding of the analysis core of [css_html_analyzer.py]
  (class [CSSHTMLAnalyzer]): the rule hash, the selector decomposer and
  the three reports computed from the rule index and the usage facts.

  Text is modelled as [string] over ASCII characters (code points below
  128), which is where the regular expressions of the source have the
  fixed meaning written out below.  Python sets of names are [gset string];
  the two [defaultdict(list)] tables keep insertion order and are ordered
  association lists. *)

From Stdlib Require Import Ascii String.
From stdpp Require Import gmap strings list.

Local Open Scope string_scope.
Local Open Scope list_scope.

(* ===================================================================== *)
(** ** Characters and character classes *)
(* ===================================================================== *)

Module Chars.

Definition code (c : ascii) : nat := nat_of_ascii c.

Definition in_range (lo hi c : ascii) : bool :=
  (code lo <=? code c)%nat && (code c <=? code hi)%nat.

Definition is_lower (c : ascii) : bool := in_range "a" "z" c.
Definition is_upper (c : ascii) : bool := in_range "A" "Z" c.
Definition is_digit (c : ascii) : bool := in_range "0" "9" c.

Definition is_char (x c : ascii) : bool := bool_decide (c = x).

(** [\w] on ASCII text: letters, digits and the underscore. *)
Definition is_word (c : ascii) : bool :=
  is_lower c || is_upper c || is_digit c || is_char "_" c.

(** [\s] on ASCII text, which is also what [str.strip()] removes:
    tab, line feed, vertical tab, form feed, carriage return, the four
    separators 0x1c..0x1f and the space. *)
Definition is_space (c : ascii) : bool :=
  let n := code c in
  ((9 <=? n)%nat && (n <=? 13)%nat) || ((28 <=? n)%nat && (n <=? 32)%nat).

(** [[\w-]] *)
Definition is_word_or_dash (c : ascii) : bool := is_word c || is_char "-" c.

(** [[a-zA-Z0-9_-]] *)
Definition is_name_char (c : ascii) : bool :=
  is_lower c || is_upper c || is_digit c || is_char "_" c || is_char "-" c.

(** [[a-z0-9]] *)
Definition is_lower_or_digit (c : ascii) : bool := is_lower c || is_digit c.

(** [[^)]] *)
Definition is_not_rparen (c : ascii) : bool := negb (is_char ")" c).

(** One character of [str.lower()]. *)
Definition lower_char (c : ascii) : ascii :=
  if is_upper c then ascii_of_nat (code c + 32) else c.

End Chars.

(* ===================================================================== *)
(** ** The fragment of Python's [re] used by the analyzer *)
(* ===================================================================== *)

Module Re.

(** Patterns.  The source applies [*] and [+] to character classes only,
    and no pattern has more than one capturing group. *)
Inductive regex : Type :=
| Lit (c : ascii)
| Cls (p : ascii -> bool)
| WordB
| Cat (r1 r2 : regex)
| Opt (r : regex)
| Star (p : ascii -> bool)
| Plus (p : ascii -> bool)
| Grp (r : regex).

(** A matcher position: the character before it (for [\b]), the text
    still ahead, and the text of the capturing group if it is set. *)
Record mstate : Type := MState {
  prev : option ascii;
  rest : string;
  grp : option string
}.

Definition word_before (st : mstate) : bool :=
  match prev st with Some c => Chars.is_word c | None => false end.

Definition word_after (st : mstate) : bool :=
  match rest st with String c _ => Chars.is_word c | EmptyString => false end.

Definition step_char (p : ascii -> bool) (st : mstate) : option mstate :=
  match rest st with
  | String c s' => if p c then Some (MState (Some c) s' (grp st)) else None
  | EmptyString => None
  end.

(** Greedy repetition of a class: take as many characters as possible and
    give one back at a time while the continuation fails. *)
Fixpoint star_from {A} (p : ascii -> bool) (pv : option ascii) (s : string)
    (g : option string) (k : mstate -> option A) : option A :=
  match s with
  | String c s' =>
      if p c then
        match star_from p (Some c) s' g k with
        | Some x => Some x
        | None => k (MState pv s g)
        end
      else k (MState pv s g)
  | EmptyString => k (MState pv s g)
  end.

(** Backtracking matcher in continuation-passing style: alternatives are
    tried in the priority order of [re] (greedy first). *)
Fixpoint run {A} (r : regex) (st : mstate) (k : mstate -> option A) : option A :=
  match r with
  | Lit c =>
      match step_char (Chars.is_char c) st with Some st' => k st' | None => None end
  | Cls p =>
      match step_char p st with Some st' => k st' | None => None end
  | WordB =>
      if xorb (word_before st) (word_after st) then k st else None
  | Cat r1 r2 => run r1 st (fun st1 => run r2 st1 k)
  | Opt r1 =>
      match run r1 st k with
      | Some x => Some x
      | None => k st
      end
  | Star p => star_from p (prev st) (rest st) (grp st) k
  | Plus p =>
      match step_char p st with
      | Some st' => star_from p (prev st') (rest st') (grp st') k
      | None => None
      end
  | Grp r1 =>
      run r1 st (fun st' =>
        let n := String.length (rest st) - String.length (rest st') in
        k (MState (prev st') (rest st') (Some (substring 0 n (rest st)))))
  end.

Fixpoint has_group (r : regex) : bool :=
  match r with
  | Grp _ => true
  | Cat r1 r2 => has_group r1 || has_group r2
  | Opt r1 => has_group r1
  | _ => false
  end.

(** The match starting exactly here, if any: its length and group 1. *)
Definition match_here (r : regex) (pv : option ascii) (s : string)
    : option (nat * option string) :=
  run r (MState pv s None)
    (fun st => Some (String.length s - String.length (rest st), grp st)).

(** What [findall] reports for one match: group 1 when the pattern has a
    group (the empty string when it did not take part), else the match. *)
Definition reported (r : regex) (s : string) (m : nat * option string) : string :=
  if has_group r then default "" (snd m) else substring 0 (fst m) s.

(** [re.findall(r, s)]: scan left to right; [skip] counts the characters
    still covered by the last match.  A match of length zero is reported
    and the scan moves one character on. *)
Fixpoint findall_from (r : regex) (pv : option ascii) (s : string) (skip : nat)
    : list string :=
  match s with
  | EmptyString =>
      match skip with
      | O => match match_here r pv s with
             | Some m => [reported r s m]
             | None => []
             end
      | S _ => []
      end
  | String c s' =>
      match skip with
      | S n => findall_from r (Some c) s' n
      | O =>
          match match_here r pv s with
          | Some m => reported r s m :: findall_from r (Some c) s' (fst m - 1)
          | None => findall_from r (Some c) s' 0
          end
      end
  end.

Definition findall (r : regex) (s : string) : list string :=
  findall_from r None s 0.

(** [re.sub(r, repl, s)] for a replacement without group references. *)
Fixpoint sub_from (r : regex) (repl : string) (pv : option ascii) (s : string)
    (skip : nat) : string :=
  match s with
  | EmptyString =>
      match skip with
      | O => match match_here r pv s with
             | Some _ => repl
             | None => ""
             end
      | S _ => ""
      end
  | String c s' =>
      match skip with
      | S n => sub_from r repl (Some c) s' n
      | O =>
          match match_here r pv s with
          | Some (O, _) => repl +:+ String c (sub_from r repl (Some c) s' 0)
          | Some (S n, _) => repl +:+ sub_from r repl (Some c) s' n
          | None => String c (sub_from r repl (Some c) s' 0)
          end
      end
  end.

Definition sub (r : regex) (repl s : string) : string :=
  sub_from r repl None s 0.

End Re.

(* ===================================================================== *)
(** ** String methods *)
(* ===================================================================== *)

Module Str.

(** [s.lower()] *)
Fixpoint lower (s : string) : string :=
  match s with
  | EmptyString => EmptyString
  | String c s' => String (Chars.lower_char c) (lower s')
  end.

Fixpoint lstrip (s : string) : string :=
  match s with
  | String c s' => if Chars.is_space c then lstrip s' else s
  | EmptyString => EmptyString
  end.

Fixpoint rstrip (s : string) : string :=
  match s with
  | EmptyString => EmptyString
  | String c s' =>
      match rstrip s' with
      | EmptyString => if Chars.is_space c then EmptyString else String c EmptyString
      | t => String c t
      end
  end.

(** [s.strip()] *)
Definition strip (s : string) : string := rstrip (lstrip s).

(** [s.split(sep)] for a one-character separator: the pieces between
    the separators, in order (one piece when there is no separator). *)
Fixpoint split (sep : ascii) (s : string) : list string :=
  match s with
  | EmptyString => [EmptyString]
  | String c s' =>
      if bool_decide (c = sep) then EmptyString :: split sep s'
      else match split sep s' with
           | p :: ps => String c p :: ps
           | [] => [String c EmptyString]
           end
  end.

End Str.

(* ===================================================================== *)
(** ** The analyzer *)
(* ===================================================================== *)

Module Analyzer.

Import Re.

(** *** Tables

    [defaultdict(list)]: keys in order of first insertion, each with the
    list of values appended under it. *)
Definition table (V : Type) : Type := list (string * list V).

(** [d[k].append(v)] *)
Fixpoint dd_append {V} (k : string) (v : V) (d : table V) : table V :=
  match d with
  | [] => [(k, [v])]
  | (k', vs) :: d' =>
      if bool_decide (k' = k) then (k', vs ++ [v]) :: d'
      else (k', vs) :: dd_append k v d'
  end.

(** The values recorded under [k] (none when the key is absent). *)
Fixpoint dd_get {V} (k : string) (d : table V) : list V :=
  match d with
  | [] => []
  | (k', vs) :: d' => if bool_decide (k' = k) then vs else dd_get k d'
  end.

(** *** State of a [CSSHTMLAnalyzer] *)
Record analyzer : Type := Analyzer {
  html_classes : gset string;
  html_ids : gset string;
  html_tags : gset string;
  css_selectors : table string;
  duplicate_rules : table (string * string)
}.

(** [__init__] *)
Definition init : analyzer := Analyzer ∅ ∅ ∅ [] [].

(** One style rule as [parse_css_files] sees it: the file being read,
    [rule.selectorText] and [rule.style.cssText]. *)
Record style_rule : Type := StyleRule {
  css_file : string;
  selectorText : string;
  cssText : string
}.

(** *** The regular expressions of the source *)

(** [\s+] *)
Definition re_spaces : regex := Plus Chars.is_space.

(** [::?[\w-]+(\([^)]*\))?] *)
Definition re_pseudo : regex :=
  Cat (Lit ":")
 (Cat (Opt (Lit ":"))
 (Cat (Plus Chars.is_word_or_dash)
      (Opt (Grp (Cat (Lit "(") (Cat (Star Chars.is_not_rparen) (Lit ")"))))))).

(** [\.([a-zA-Z0-9_-]+)] *)
Definition re_class : regex := Cat (Lit ".") (Grp (Plus Chars.is_name_char)).

(** [#([a-zA-Z0-9_-]+)] *)
Definition re_id : regex := Cat (Lit "#") (Grp (Plus Chars.is_name_char)).

(** [\b( [a-z][a-z0-9]* )\b], written here with spaces around the group *)
Definition re_tag : regex :=
  Cat WordB
 (Cat (Grp (Cat (Cls Chars.is_lower) (Star Chars.is_lower_or_digit)))
      WordB).

(** *** [_hash_rule] *)

Definition normalize (css_text : string) : string :=
  Str.strip (sub re_spaces " " css_text).

Definition _hash_rule (selector css_text : string) : string :=
  selector +:+ "|" +:+ normalize css_text.

(** *** [parse_css_files], from the style rules in the order read *)

Definition add_style_rule (st : analyzer) (r : style_rule) : analyzer :=
  let selector := selectorText r in
  let rule_hash := _hash_rule selector (cssText r) in
  Analyzer (html_classes st) (html_ids st) (html_tags st)
    (dd_append selector (css_file r) (css_selectors st))
    (dd_append rule_hash (css_file r, selector) (duplicate_rules st)).

Definition parse_css_files (rules : list style_rule) (st : analyzer) : analyzer :=
  foldl add_style_rule st rules.

(** *** [_extract_selector_components] *)

Record components : Type := Components {
  classes : gset string;
  ids : gset string;
  tags : gset string
}.

Definition keywords : gset string := {["not"; "is"; "where"; "has"]}.

Definition _extract_selector_components (selector : string) : components :=
  let cleaned := sub re_pseudo "" selector in
  Components
    (list_to_set (findall re_class cleaned))
    (list_to_set (findall re_id cleaned))
    (list_to_set (findall re_tag (Str.lower cleaned)) ∖ keywords).

(** *** [find_unused_selectors] *)

Record unused_entry : Type := Unused {
  u_selector : string;
  u_files : list string;
  u_components : components
}.

(** [any(x in facts for x in names)] *)
Definition any_in (names facts : gset string) : bool :=
  existsb (fun x => bool_decide (x ∈ facts)) (elements names).

(** [bool(s)] for a set *)
Definition nonempty (s : gset string) : bool := negb (bool_decide (s = ∅)).

Definition has_components (c : components) : bool :=
  nonempty (classes c) || nonempty (ids c) || nonempty (tags c).

Definition is_unused (st : analyzer) (c : components) : bool :=
  let class_used := any_in (classes c) (html_classes st) in
  let id_used := any_in (ids c) (html_ids st) in
  let tag_used := any_in (tags c) (html_tags st) in
  has_components c && negb (class_used || id_used || tag_used).

Fixpoint unused_of (st : analyzer) (items : table string) : list unused_entry :=
  match items with
  | [] => []
  | (selector, files) :: items' =>
      let c := _extract_selector_components selector in
      if is_unused st c then Unused selector files c :: unused_of st items'
      else unused_of st items'
  end.

Definition find_unused_selectors (st : analyzer) : list unused_entry :=
  unused_of st (css_selectors st).

(** *** [find_duplicate_selectors] *)

Record dup_selector : Type := DupSelector {
  ds_selector : string;
  ds_count : nat;
  ds_files : list string
}.

Fixpoint dup_selectors_of (items : table string) : list dup_selector :=
  match items with
  | [] => []
  | (selector, files) :: items' =>
      if (1 <? length files)%nat
      then DupSelector selector (length files) files :: dup_selectors_of items'
      else dup_selectors_of items'
  end.

Definition find_duplicate_selectors (st : analyzer) : list dup_selector :=
  dup_selectors_of (css_selectors st).

(** *** [find_duplicate_rules]

    [rule_hash.split('|')[0]] indexes a list, which raises on an empty
    one: the report is computed in the error monad, [None] standing for
    the exception. *)

Record dup_rule : Type := DupRule {
  dr_rule : string;
  dr_count : nat;
  dr_locations : list (string * string)
}.

Fixpoint dup_rules_of (items : table (string * string)) : option (list dup_rule) :=
  match items with
  | [] => Some []
  | (rule_hash, locations) :: items' =>
      if (1 <? length locations)%nat then
        sel ← Str.split "|" rule_hash !! 0%nat;
        ds ← dup_rules_of items';
        Some (DupRule sel (length locations) locations :: ds)
      else dup_rules_of items'
  end.

Definition find_duplicate_rules (st : analyzer) : option (list dup_rule) :=
  dup_rules_of (duplicate_rules st).

End Analyzer.

(* ===================================================================== *)
(** ** Notions used to state the results *)
(* ===================================================================== *)

Module Notions.

Import Analyzer.

(** The key under which [parse_css_files] files a rule. *)
Definition rule_key (r : style_rule) : string :=
  _hash_rule (selectorText r) (cssText r).

(** The location it records for the rule. *)
Definition location (r : style_rule) : string * string :=
  (css_file r, selectorText r).

(** An index as appends leave it: one entry per key, no empty entry. *)
Definition well_formed {V} (d : table V) : Prop :=
  NoDup d.*1 ∧ Forall (λ e, e.2 ≠ []) d.

(** The rules of the input that carry a given selector text. *)
Definition occurrences (sel : string) (rules : list style_rule) : list style_rule :=
  filter (λ r, selectorText r = sel) rules.

(** Whether a character occurs in a text. *)
Fixpoint has_char (x : ascii) (s : string) : bool :=
  match s with
  | EmptyString => false
  | String c s' => bool_decide (c = x) || has_char x s'
  end.

End Notions.

Import Notions.

(* ===================================================================== *)
(** ** Further notions: order of first occurrence, recorded occurrences *)
(* ===================================================================== *)

Module Occurrences.

Import Analyzer.

(** The distinct elements of a list in the order of their first occurrence. *)
Fixpoint first_occurrences (l : list string) : list string :=
  match l with
  | [] => []
  | x :: l' => x :: filter (λ y, y ≠ x) (first_occurrences l')
  end.

(** The number of values a table holds, all keys together. *)
Definition recorded {V} (d : table V) : nat := sum_list (length <$> d.*2).

(** The rules of the input that are filed under a given key. *)
Definition keyed (h : string) (rules : list style_rule) : list style_rule :=
  filter (λ r, Notions.rule_key r = h) rules.

(** No selector of the input contains the bar that separates the two
    parts of a rule hash. *)
Definition bar_free (rules : list style_rule) : Prop :=
  Forall (λ r, Notions.has_char "|" (selectorText r) = false) rules.

End Occurrences.

Import Occurrences.

(* ===================================================================== *)
(** ** Further notions: shapes of texts *)
(* ===================================================================== *)

Module Shapes.

(** Every character of the text is in the class. *)
Fixpoint all_chars (p : ascii → bool) (s : string) : bool :=
  match s with
  | EmptyString => true
  | String c s' => p c && all_chars p s'
  end.

(** The number of leading characters of the text that are in the class. *)
Fixpoint run_len (p : ascii → bool) (s : string) : nat :=
  match s with
  | EmptyString => 0
  | String c s' => if p c then S (run_len p s') else 0
  end.

(** The last character of the text, or [pv] for the empty text. *)
Fixpoint last_char (pv : option ascii) (s : string) : option ascii :=
  match s with
  | EmptyString => pv
  | String c s' => last_char (Some c) s'
  end.

(** Whitespace-normal texts: the only whitespace is the space character,
    never two in a row and never at an end of the text.  [after_space]
    tells that the position is at the start or just after a space. *)
Fixpoint squeezed (after_space : bool) (s : string) : bool :=
  match s with
  | EmptyString => true
  | String c s' =>
      if Chars.is_space c
      then bool_decide (c = " "%char) && negb after_space
           && negb (bool_decide (s' = EmptyString)) && squeezed true s'
      else squeezed false s'
  end.

Definition whitespace_normal (s : string) : bool := squeezed true s.

(** Whitespace runs replaced by one space each; a run that starts the text
    is dropped when [in_run] is set. *)
Fixpoint collapse (in_run : bool) (s : string) : string :=
  match s with
  | EmptyString => EmptyString
  | String c s' =>
      if Chars.is_space c
      then (if in_run then collapse true s' else String " " (collapse true s'))
      else String c (collapse false s')
  end.

(** Names as the class and id patterns capture them: one or more of
    [a-zA-Z0-9_-]. *)
Definition is_name (s : string) : bool :=
  negb (bool_decide (s = EmptyString)) && all_chars Chars.is_name_char s.

(** Names as the tag pattern captures them: a lower-case letter followed
    by lower-case letters and digits. *)
Definition is_tag_name (s : string) : bool :=
  match s with
  | EmptyString => false
  | String c s' => Chars.is_lower c && all_chars Chars.is_lower_or_digit s'
  end.

(** Texts of ASCII characters only (code points below 128), where the
    character classes of [Chars] are those of Python. *)
Definition ascii_text (s : string) : bool :=
  all_chars (λ c, (Chars.code c <? 128)%nat) s.

(** [strip_prefix p s]: what follows [p] in [s], when [s] starts with [p]. *)
Fixpoint strip_prefix (p s : string) : option string :=
  match p, s with
  | EmptyString, _ => Some s
  | String a p', String b s' =>
      if bool_decide (a = b) then strip_prefix p' s' else None
  | String _ _, EmptyString => None
  end.

(** Two rules, given by selector and normalized declarations, are in the
    bar-shift shape when the first selector is the second selector, a bar
    and a text [x], while the second declarations are [x], a bar and the
    first declarations: the two hashes are then the same text, cut at
    different bars. *)
Definition bar_shift (s1 n1 s2 n2 : string) : bool :=
  match strip_prefix (s2 +:+ "|") s1 with
  | Some x => bool_decide (n2 = x +:+ "|" +:+ n1)
  | None => false
  end.

End Shapes.

Import Shapes.

(* ===================================================================== *)
(** ** Reading the markup and running the analysis *)
(* ===================================================================== *)

Module Html.

Import Analyzer.

(** What [tag.get('class')] returns: a list of tokens, or one text. *)
Inductive class_value : Type :=
| ClassList (tokens : list string)
| ClassText (value : string).

(** A tag of a parsed document: [tag.name] and its [class] and [id]
    attributes, [None] when the attribute is absent. *)
Record element : Type := Element {
  name : string;
  class_attr : option class_value;
  id_attr : option string
}.

(** A parsed document, as the list of its tags in the order in which
    [soup.find_all()] yields them. *)
Abbreviation soup := (list element).

(** A name is a class of a tag when it is the text of its class attribute
    or one of the tokens of that attribute. *)
Definition has_class (e : element) (x : string) : Prop :=
  class_attr e = Some (ClassText x) ∨
  ∃ tokens, class_attr e = Some (ClassList tokens) ∧ x ∈ tokens.

(** [soup.find_all(class_=True)] and [soup.find_all(id=True)] *)
Definition find_all_class (doc : soup) : list element :=
  filter (λ e, is_Some (class_attr e)) doc.

Definition find_all_id (doc : soup) : list element :=
  filter (λ e, is_Some (id_attr e)) doc.

(** One round of the class loop: [update] for a list, [add] otherwise. *)
Definition add_classes (cs : gset string) (e : element) : gset string :=
  match default (ClassList []) (class_attr e) with
  | ClassList tokens => cs ∪ list_to_set tokens
  | ClassText value => cs ∪ {[value]}
  end.

(** One round of the id loop (the tags it runs over have the attribute). *)
Definition add_id (ns : gset string) (e : element) : gset string :=
  match id_attr e with
  | Some i => ns ∪ {[i]}
  | None => ns
  end.

(** One round of the tag loop. *)
Definition add_tag (ts : gset string) (e : element) : gset string :=
  ts ∪ {[name e]}.

(** The body of the loop over the files of [parse_html_files]: [None]
    stands for a file whose reading or parsing raised, which the handler
    reports and skips. *)
Definition parse_html_file (st : analyzer) (outcome : option soup) : analyzer :=
  match outcome with
  | None => st
  | Some doc =>
      Analyzer
        (foldl add_classes (html_classes st) (find_all_class doc))
        (foldl add_id (html_ids st) (find_all_id doc))
        (foldl add_tag (html_tags st) doc)
        (css_selectors st) (duplicate_rules st)
  end.

(** [parse_html_files], from the outcomes of the files in the order read. *)
Definition parse_html_files (files : list (option soup)) (st : analyzer) : analyzer :=
  foldl parse_html_file st files.

(** A rule of a parsed stylesheet: a style rule with its selector text and
    the text of its declarations, or a rule of another type (at-rule,
    comment), which the loop passes over. *)
Inductive sheet_rule : Type :=
| SheetStyle (selector css_text : string)
| SheetOther.

(** The body of the loop over the rules of a sheet. *)
Definition parse_sheet_rule (file : string) (st : analyzer) (r : sheet_rule)
    : analyzer :=
  match r with
  | SheetStyle selector css_text => add_style_rule st (StyleRule file selector css_text)
  | SheetOther => st
  end.

(** The body of the loop over the stylesheet files: the file with the
    outcome of parsing it, [None] when reading or parsing raised. *)
Definition parse_css_file (st : analyzer)
    (f : string * option (list sheet_rule)) : analyzer :=
  match f.2 with
  | None => st
  | Some sheet => foldl (parse_sheet_rule f.1) st sheet
  end.

(** The loop of [parse_css_files] over the stylesheet files as read. *)
Definition parse_css_sheets (files : list (string * option (list sheet_rule)))
    (st : analyzer) : analyzer :=
  foldl parse_css_file st files.

(** The style rules of the parsed files, file after file, each in the
    order of its sheet. *)
Definition style_rules_of_sheet (file : string) (sheet : list sheet_rule)
    : list style_rule :=
  omap (λ r, match r with
             | SheetStyle selector css_text => Some (StyleRule file selector css_text)
             | SheetOther => None
             end) sheet.

Definition style_rules_of (files : list (string * option (list sheet_rule)))
    : list style_rule :=
  concat ((λ f, match f.2 with
                | Some sheet => style_rules_of_sheet f.1 sheet
                | None => []
                end) <$> files).

(** The [stats] of the result of [analyze]. *)
Record stats : Type := Stats {
  total_css_selectors : nat;
  total_html_classes : nat;
  total_html_ids : nat;
  total_html_tags : nat
}.

(** The result of [analyze]. *)
Record results : Type := Results {
  unused_selectors : list unused_entry;
  duplicate_selectors : list dup_selector;
  duplicate_rules_found : list dup_rule;
  result_stats : stats
}.

(** A path of the directory walk: [open] raised on it, or it was opened,
    with the outcome of reading and parsing inside the handler. *)
Inductive opened (A : Type) : Type :=
| CannotOpen
| Opened (outcome : option A).

Arguments CannotOpen {A}.
Arguments Opened {A} outcome.

Definition openable {A} (p : opened A) : bool :=
  match p with
  | CannotOpen => false
  | Opened _ => true
  end.

Definition outcome_of {A} (p : opened A) : option A :=
  match p with
  | CannotOpen => None
  | Opened o => o
  end.

(** [parse_html_files] over the paths of the walk.  [open] stands outside
    the handler: when it raises, the exception leaves the function, which
    is [None] here. *)
Fixpoint parse_html_paths (paths : list (opened soup)) (st : analyzer)
    : option analyzer :=
  match paths with
  | [] => Some st
  | CannotOpen :: _ => None
  | Opened o :: paths' => parse_html_paths paths' (parse_html_file st o)
  end.

(** [parse_css_files] over the paths of the walk, in the same way. *)
Fixpoint parse_css_paths (paths : list (string * opened (list sheet_rule)))
    (st : analyzer) : option analyzer :=
  match paths with
  | [] => Some st
  | (file, CannotOpen) :: _ => None
  | (file, Opened o) :: paths' => parse_css_paths paths' (parse_css_file st (file, o))
  end.

(** The style rules read from the stylesheet paths. *)
Definition rules_read (paths : list (string * opened (list sheet_rule)))
    : list style_rule :=
  style_rules_of ((λ p, (p.1, outcome_of p.2)) <$> paths).

(** [analyze]: read the markup, read the stylesheets, run the three
    reports on the state so obtained; the state is returned with the
    result, since the analyzer object keeps it.  [None] stands for an
    exception leaving the function. *)
Definition analyze (html : list (opened soup))
    (css : list (string * opened (list sheet_rule)))
    (st : analyzer) : option (analyzer * results) :=
  st1 ← parse_html_paths html st;
  st2 ← parse_css_paths css st1;
  drs ← find_duplicate_rules st2;
  Some (st2,
        Results (find_unused_selectors st2) (find_duplicate_selectors st2) drs
          (Stats (length (css_selectors st2)) (size (html_classes st2))
             (size (html_ids st2)) (size (html_tags st2)))).

End Html.

Import Html.

(* ===================================================================== *)
(** ** Properties of the tables *)
(* ===================================================================== *)

Section Tables.

Import Analyzer.
Context {V : Type}.
Implicit Types (k : string) (v : V) (d : table V).

Lemma dd_get_append_eq k v d :
  dd_get k (dd_append k v d) = dd_get k d ++ [v].
Proof.
  induction d as [|[k' vs] d IH]; simpl.
  - by rewrite bool_decide_eq_true_2.
  - case_bool_decide as Hk; simpl.
    + by rewrite bool_decide_eq_true_2.
    + by rewrite bool_decide_eq_false_2.
Qed.

Lemma dd_get_append_ne k k' v d :
  k ≠ k' → dd_get k' (dd_append k v d) = dd_get k' d.
Proof.
  intros Hne. induction d as [|[k0 vs] d IH]; simpl.
  - by rewrite bool_decide_eq_false_2.
  - case_bool_decide as Hk; simpl.
    + subst k0. by rewrite !bool_decide_eq_false_2.
    + by rewrite IH.
Qed.

(** Appending never creates a second entry for a key. *)
Lemma dd_append_keys k v d :
  (dd_append k v d).*1 = if bool_decide (k ∈ d.*1) then d.*1 else d.*1 ++ [k].
Proof.
  induction d as [|[k' vs] d IH]; [done |].
  cbn [dd_append fmap list_fmap fst].
  destruct (decide (k' = k)) as [->|Hk].
  - rewrite !bool_decide_eq_true_2; [done | left | done].
  - rewrite (bool_decide_eq_false_2 (k' = k)) by done.
    cbn [fmap list_fmap fst]. rewrite IH.
    destruct (decide (k ∈ d.*1)) as [Hin|Hin].
    + rewrite !bool_decide_eq_true_2; [done | by right | done].
    + rewrite !bool_decide_eq_false_2; [done | | done].
      intros [->|?]%elem_of_cons; done.
Qed.

Lemma dd_append_NoDup k v d : NoDup d.*1 → NoDup (dd_append k v d).*1.
Proof.
  intros Hd. rewrite dd_append_keys. case_bool_decide as Hin; [done |].
  apply NoDup_app. split_and!; [done | | apply NoDup_singleton].
  intros x Hx ->%list_elem_of_singleton. done.
Qed.

Lemma dd_append_nonempty k v d :
  Forall (λ e, e.2 ≠ []) d → Forall (λ e, e.2 ≠ []) (dd_append k v d).
Proof.
  induction 1 as [|[k' vs] d Hv Hd IH]; simpl.
  - by repeat constructor.
  - case_bool_decide; constructor; simpl in *; try done.
    by destruct vs.
Qed.

Lemma dd_get_elem k d : dd_get k d ≠ [] → (k, dd_get k d) ∈ d.
Proof.
  induction d as [|[k' vs] d IH]; simpl; [done |].
  case_bool_decide as Hk.
  - subst k'. intros _. left.
  - intros H. right. by apply IH.
Qed.

Lemma dd_elem_get k vs d : NoDup d.*1 → (k, vs) ∈ d → dd_get k d = vs.
Proof.
  induction d as [|[k' vs'] d IH]; simpl.
  - by intros _ ?%elem_of_nil.
  - intros [Hk' Hd]%NoDup_cons [Heq|Hin]%elem_of_cons.
    + injection Heq as -> ->. by rewrite bool_decide_eq_true_2.
    + rewrite bool_decide_eq_false_2; [by apply IH |].
      intros ->. apply Hk'. apply list_elem_of_fmap. by exists (k, vs).
Qed.

(** In a table built by appends, an entry is the non-empty value list
    read under its key. *)
Lemma dd_elem_iff k vs d :
  NoDup d.*1 → Forall (λ e, e.2 ≠ []) d →
  (k, vs) ∈ d ↔ dd_get k d = vs ∧ vs ≠ [].
Proof.
  intros Hnd Hne. split.
  - intros Hin. split; [by apply dd_elem_get |].
    rewrite Forall_forall in Hne. exact (Hne _ Hin).
  - intros [<- Hvs]. by apply dd_get_elem.
Qed.

End Tables.

(* ===================================================================== *)
(** ** Unused selectors *)
(* ===================================================================== *)

Section Unused.

Import Analyzer.
Implicit Types (st : analyzer) (c : components) (e : unused_entry).

Lemma any_in_true names facts :
  any_in names facts = true ↔ ∃ x, x ∈ names ∧ x ∈ facts.
Proof.
  unfold any_in. rewrite existsb_exists. split.
  - intros (x & Hx & Hf). exists x. split.
    + apply elem_of_elements. by apply list_elem_of_In.
    + by apply bool_decide_eq_true in Hf.
  - intros (x & Hx & Hf). exists x. split.
    + apply list_elem_of_In. by apply elem_of_elements.
    + by apply bool_decide_eq_true.
Qed.

Lemma any_in_false names facts :
  any_in names facts = false ↔ ∀ x, x ∈ names → x ∉ facts.
Proof.
  rewrite <- not_true_iff_false, any_in_true. split.
  - intros Hno x Hx Hf. apply Hno. by exists x.
  - intros Hall (x & Hx & Hf). by apply (Hall x).
Qed.

Lemma any_in_mono names facts facts' :
  facts' ⊆ facts → any_in names facts' = true → any_in names facts = true.
Proof.
  rewrite !any_in_true. intros Hsub (x & Hx & Hf). exists x. split; [done |].
  by apply Hsub.
Qed.

Lemma nonempty_true (s : gset string) : nonempty s = true ↔ s ≠ ∅.
Proof.
  unfold nonempty. rewrite negb_true_iff, bool_decide_eq_false. done.
Qed.

Lemma has_components_true c :
  has_components c = true ↔ classes c ≠ ∅ ∨ ids c ≠ ∅ ∨ tags c ≠ ∅.
Proof.
  unfold has_components. rewrite !orb_true_iff, !nonempty_true. tauto.
Qed.

Lemma is_unused_true st c :
  is_unused st c = true ↔
    (classes c ≠ ∅ ∨ ids c ≠ ∅ ∨ tags c ≠ ∅) ∧
    (∀ x, x ∈ classes c → x ∉ html_classes st) ∧
    (∀ x, x ∈ ids c → x ∉ html_ids st) ∧
    (∀ x, x ∈ tags c → x ∉ html_tags st).
Proof.
  unfold is_unused. cbv zeta.
  rewrite andb_true_iff, negb_true_iff, !orb_false_iff.
  rewrite has_components_true, !any_in_false. tauto.
Qed.

Lemma elem_of_unused_of st items e :
  e ∈ unused_of st items ↔
    (u_selector e, u_files e) ∈ items ∧
    u_components e = _extract_selector_components (u_selector e) ∧
    is_unused st (u_components e) = true.
Proof.
  induction items as [|[sel files] items IH]; simpl.
  - split; [by intros ?%elem_of_nil | by intros [?%elem_of_nil _]].
  - destruct (is_unused st (_extract_selector_components sel)) eqn:Hu.
    + rewrite !elem_of_cons, IH. split.
      * intros [-> | (? & ? & ?)]; simpl; [by auto | by auto].
      * intros ([Heq | Hin] & Hc & Hun); [left | by right].
        destruct e as [s f c]; simpl in *. by simplify_eq.
    + rewrite elem_of_cons, IH. split.
      * intros (? & ? & ?). by auto.
      * intros ([Heq | Hin] & Hc & Hun); [| done].
        destruct e as [s f c]; simpl in *. simplify_eq. congruence.
Qed.

(** The selectors reported are those of the index that pass the test, in
    the order of the index. *)
Lemma unused_of_selectors st items :
  u_selector <$> unused_of st items =
  filter (λ sel, is_unused st (_extract_selector_components sel) = true) items.*1.
Proof.
  induction items as [|[sel files] items IH]; [done |].
  rewrite fmap_cons, filter_cons. cbn [unused_of fst].
  destruct (is_unused st (_extract_selector_components sel)) eqn:Hu.
  - rewrite decide_True by done. rewrite fmap_cons. simpl. by rewrite IH.
  - rewrite decide_False by done. done.
Qed.

End Unused.

(* ===================================================================== *)
(** ** The rule index built by [parse_css_files] *)
(* ===================================================================== *)

Section Index.

Import Analyzer.
Implicit Types (st : analyzer) (r : style_rule) (rules : list style_rule).

Lemma well_formed_nil {V} : well_formed (@nil (string * list V)).
Proof. split; [apply NoDup_nil_2 | constructor]. Qed.

Lemma well_formed_append {V} k (v : V) d :
  well_formed d → well_formed (dd_append k v d).
Proof.
  intros [? ?]. split; [by apply dd_append_NoDup | by apply dd_append_nonempty].
Qed.

Lemma parse_css_files_cons r rules st :
  parse_css_files (r :: rules) st = parse_css_files rules (add_style_rule st r).
Proof. done. Qed.

Lemma parse_css_files_facts rules st :
  html_classes (parse_css_files rules st) = html_classes st ∧
  html_ids (parse_css_files rules st) = html_ids st ∧
  html_tags (parse_css_files rules st) = html_tags st.
Proof.
  revert st. induction rules as [|r rules IH]; intros st; [done |].
  rewrite parse_css_files_cons. destruct (IH (add_style_rule st r)) as (-> & -> & ->).
  done.
Qed.

Lemma parse_css_files_well_formed rules st :
  well_formed (css_selectors st) → well_formed (duplicate_rules st) →
  well_formed (css_selectors (parse_css_files rules st)) ∧
  well_formed (duplicate_rules (parse_css_files rules st)).
Proof.
  revert st. induction rules as [|r rules IH]; intros st Hs Hd; [done |].
  rewrite parse_css_files_cons. apply IH; simpl; by apply well_formed_append.
Qed.

(** Every occurrence of a selector adds its file, in input order. *)
Lemma css_selectors_parse sel rules st :
  dd_get sel (css_selectors (parse_css_files rules st)) =
  dd_get sel (css_selectors st)
    ++ (css_file <$> filter (λ r, selectorText r = sel) rules).
Proof.
  revert st. induction rules as [|r rules IH]; intros st.
  - by rewrite app_nil_r.
  - rewrite parse_css_files_cons, IH, filter_cons. simpl.
    destruct (decide (selectorText r = sel)) as [<-|Hne].
    + by rewrite dd_get_append_eq, fmap_cons, <- app_assoc.
    + by rewrite dd_get_append_ne.
Qed.

(** Every occurrence of a key adds its location, in input order. *)
Lemma duplicate_rules_parse h rules st :
  dd_get h (duplicate_rules (parse_css_files rules st)) =
  dd_get h (duplicate_rules st)
    ++ (location <$> filter (λ r, rule_key r = h) rules).
Proof.
  revert st. induction rules as [|r rules IH]; intros st.
  - by rewrite app_nil_r.
  - rewrite parse_css_files_cons, IH, filter_cons. simpl.
    destruct (decide (rule_key r = h)) as [<-|Hne].
    + by rewrite dd_get_append_eq, fmap_cons, <- app_assoc.
    + by rewrite dd_get_append_ne.
Qed.

Lemma elem_of_dup_selectors_of (items : table string) (d : dup_selector) :
  d ∈ dup_selectors_of items ↔
    (ds_selector d, ds_files d) ∈ items ∧
    ds_count d = length (ds_files d) ∧ 1 < length (ds_files d).
Proof.
  induction items as [|[sel files] items IH]; simpl.
  - split; [by intros ?%elem_of_nil | by intros [?%elem_of_nil _]].
  - destruct (1 <? length files)%nat eqn:Hlen.
    + apply Nat.ltb_lt in Hlen. rewrite !elem_of_cons, IH. split.
      * intros [-> | (? & ? & ?)]; simpl; by auto.
      * intros ([Heq | Hin] & Hc & Hl); [left | by right].
        destruct d as [s n f]; simpl in *. by simplify_eq.
    + apply Nat.ltb_ge in Hlen. rewrite elem_of_cons, IH. split.
      * intros (? & ? & ?). by auto.
      * intros ([Heq | Hin] & Hc & Hl); [| done].
        destruct d as [s n f]; simpl in *. simplify_eq. lia.
Qed.

(** The report follows the order of the index and skips entries. *)
Lemma dup_selectors_of_sublist (items : table string) :
  sublist (ds_selector <$> dup_selectors_of items) items.*1.
Proof.
  induction items as [|[sel files] items IH]; [done |].
  rewrite fmap_cons. cbn [dup_selectors_of fst].
  destruct (1 <? length files)%nat.
  - rewrite fmap_cons. by apply sublist_skip.
  - by apply sublist_cons.
Qed.

(** [split] always returns a first piece, so indexing it cannot fail. *)
Lemma split_first sep s : ∃ p ps, Str.split sep s = p :: ps.
Proof.
  induction s as [|c s (p & ps & IH)]; simpl; [by eauto |].
  case_bool_decide; [by eauto |]. rewrite IH. by eauto.
Qed.

Lemma dup_rules_of_total (items : table (string * string)) :
  ∃ ds, dup_rules_of items = Some ds.
Proof.
  induction items as [|[h locs] items [ds IH]]; simpl; [by eauto |].
  destruct (1 <? length locs)%nat; [| by eauto].
  destruct (split_first "|" h) as (p & ps & ->). simpl. rewrite IH. simpl.
  by eauto.
Qed.

End Index.

(* ===================================================================== *)
(** ** Results on the selector decomposer and the unused report *)
(* ===================================================================== *)

Section Decomposer.

Import Analyzer.

(** C1: on the selector [.card] the tag pattern, which only asks for a
    word boundary before the name, finds [card] after the dot: the name
    is returned both as a class and as a tag.  In the unused report this
    hides the class selector [.p] as soon as the markup has a [p] tag,
    although no element carries the class. *)
Theorem class_name_returned_as_tag :
  _extract_selector_components ".card" = Components {["card"]} ∅ {["card"]} ∧
  "card" ∈ tags (_extract_selector_components ".card") ∧
  _extract_selector_components "#main" = Components ∅ {["main"]} {["main"]} ∧
  find_unused_selectors
    (parse_css_files [StyleRule "a.css" ".p" "color: red"]
       (Analyzer ∅ ∅ {["p"]} [] [])) = [].
Proof.
  assert (_extract_selector_components ".card"
          = Components {["card"]} ∅ {["card"]}) as Hdec
    by (vm_compute; reflexivity).
  split_and!.
  - exact Hdec.
  - rewrite Hdec. simpl. by apply elem_of_singleton.
  - vm_compute. reflexivity.
  - vm_compute. reflexivity.
Qed.

(** C2: [find_unused_selectors] returns exactly the records of the index
    whose decomposition has a non-empty component set and none of whose
    class, id and tag names occurs in the matching fact set; each entry
    carries the selector, its files and the decomposition, in the order
    of the index.  A selector whose three sets are empty is never
    reported, whatever the facts. *)
Theorem find_unused_selectors_exact (st : analyzer) :
  (∀ e : unused_entry,
     e ∈ find_unused_selectors st ↔
       (u_selector e, u_files e) ∈ css_selectors st ∧
       u_components e = _extract_selector_components (u_selector e) ∧
       (classes (u_components e) ≠ ∅ ∨ ids (u_components e) ≠ ∅
          ∨ tags (u_components e) ≠ ∅) ∧
       (∀ x, x ∈ classes (u_components e) → x ∉ html_classes st) ∧
       (∀ x, x ∈ ids (u_components e) → x ∉ html_ids st) ∧
       (∀ x, x ∈ tags (u_components e) → x ∉ html_tags st)) ∧
  sublist (u_selector <$> find_unused_selectors st) (css_selectors st).*1 ∧
  (∀ sel : string,
     _extract_selector_components sel = Components ∅ ∅ ∅ →
     sel ∉ u_selector <$> find_unused_selectors st).
Proof.
  split_and!.
  - intros e. unfold find_unused_selectors.
    by rewrite elem_of_unused_of, is_unused_true.
  - unfold find_unused_selectors. rewrite unused_of_selectors.
    apply sublist_filter.
  - intros sel Hsel (e & -> & He)%list_elem_of_fmap.
    apply elem_of_unused_of in He as (_ & Hc & Hu).
    rewrite Hc, Hsel in Hu. apply is_unused_true in Hu as [Hne _].
    simpl in Hne. by destruct Hne as [?|[?|?]].
Qed.

(** C7: for a fixed rule index, replacing each fact set by a subset of it
    keeps every selector that was reported unused in the report: the
    report with the smaller facts contains the report with the larger. *)
Theorem find_unused_selectors_antitone
    (cs cs' ns ns' ts ts' : gset string)
    (index : table string) (rules : table (string * string)) :
  cs' ⊆ cs → ns' ⊆ ns → ts' ⊆ ts →
  find_unused_selectors (Analyzer cs ns ts index rules)
    ⊆ find_unused_selectors (Analyzer cs' ns' ts' index rules).
Proof.
  intros Hc Hi Ht e. unfold find_unused_selectors. simpl.
  rewrite !elem_of_unused_of, !is_unused_true. simpl.
  intros (Hin & Hcomp & Hne & Hcs & His & Hts). split_and!; try done.
  - intros x Hx Hf. by apply (Hcs x), Hc.
  - intros x Hx Hf. by apply (His x), Hi.
  - intros x Hx Hf. by apply (Hts x), Ht.
Qed.

(** The antitonicity result at the card and missing selectors. *)
Lemma find_unused_selectors_antitone_witness :
  (∅ : gset string) ⊆ {["card"]} ∧
  find_unused_selectors
    (Analyzer {["card"]} ∅ {["div"; "p"]}
       [(".card", ["a.css"]); (".missing", ["a.css"]); ("p", ["b.css"])] [])
    ⊆ find_unused_selectors
        (Analyzer ∅ ∅ {["p"]}
           [(".card", ["a.css"]); (".missing", ["a.css"]); ("p", ["b.css"])] []).
Proof.
  split; [apply empty_subseteq |].
  apply (find_unused_selectors_antitone
           {["card"]} ∅ ∅ ∅ {["div"; "p"]} {["p"]}).
  - apply empty_subseteq.
  - apply empty_subseteq.
  - apply union_subseteq_r.
Defined.

(** C9: [div:hover::after] decomposes to the single tag [div], with no
    class and no id: both pseudo suffixes are stripped before extraction.
    When the markup has no [div] tag, a rule with that selector is in the
    unused report. *)
Theorem div_hover_after_unused (st : analyzer) (files : list string) :
  ("div:hover::after", files) ∈ css_selectors st →
  "div" ∉ html_tags st →
  _extract_selector_components "div:hover::after" = Components ∅ ∅ {["div"]} ∧
  Unused "div:hover::after" files (Components ∅ ∅ {["div"]})
    ∈ find_unused_selectors st.
Proof.
  intros Hin Hdiv.
  assert (_extract_selector_components "div:hover::after"
          = Components ∅ ∅ {["div"]}) as Hdec by (vm_compute; reflexivity).
  split; [done |].
  apply elem_of_unused_of. simpl. split_and!; [done | done |].
  apply is_unused_true. simpl. split_and!.
  - right. right. apply non_empty_singleton_L.
  - intros x Hx. by apply not_elem_of_empty in Hx.
  - intros x Hx. by apply not_elem_of_empty in Hx.
  - by intros x ->%elem_of_singleton.
Qed.

(** The same on an index read from one rule, with no markup facts. *)
Lemma div_hover_after_unused_witness :
  ("div:hover::after", ["site.css"])
    ∈ css_selectors
        (parse_css_files [StyleRule "site.css" "div:hover::after" "color: red"] init) ∧
  Unused "div:hover::after" ["site.css"] (Components ∅ ∅ {["div"]})
    ∈ find_unused_selectors
        (parse_css_files [StyleRule "site.css" "div:hover::after" "color: red"] init).
Proof.
  assert (("div:hover::after", ["site.css"])
            ∈ css_selectors
                (parse_css_files
                   [StyleRule "site.css" "div:hover::after" "color: red"] init))
    as Hin by (simpl; left).
  split; [exact Hin |].
  apply (div_hover_after_unused _ _ Hin). simpl. apply not_elem_of_empty.
Defined.

(** C10: a rule whose selector is exactly one of [not], [is], [where],
    [has] decomposes to three empty sets, the keyword being removed from
    the tag candidates, and so is never in the unused report, whatever
    the facts. *)
Theorem keyword_selector_never_unused (kw : string) (st : analyzer) :
  kw ∈ keywords →
  _extract_selector_components kw = Components ∅ ∅ ∅ ∧
  kw ∉ u_selector <$> find_unused_selectors st.
Proof.
  intros Hkw.
  assert (_extract_selector_components kw = Components ∅ ∅ ∅) as Hdec.
  { unfold keywords in Hkw.
    rewrite !elem_of_union, !elem_of_singleton in Hkw.
    destruct Hkw as [[[-> | ->] | ->] | ->]; vm_compute; reflexivity. }
  split; [done |].
  intros (e & Hsel & He)%list_elem_of_fmap.
  apply elem_of_unused_of in He as (_ & Hc & Hu).
  rewrite Hc, <- Hsel, Hdec in Hu. apply is_unused_true in Hu as [Hne _].
  simpl in Hne. by destruct Hne as [?|[?|?]].
Qed.

(** The keyword result at the selector [not]. *)
Lemma keyword_selector_never_unused_witness :
  "not" ∈ keywords ∧
  _extract_selector_components "not" = Components ∅ ∅ ∅ ∧
  "not" ∉ u_selector <$>
    find_unused_selectors
      (parse_css_files [StyleRule "a.css" "not" "color: red"] init).
Proof.
  assert ("not" ∈ keywords) as Hkw.
  { unfold keywords. rewrite !elem_of_union, !elem_of_singleton. by auto. }
  split; [exact Hkw |].
  exact (keyword_selector_never_unused "not" _ Hkw).
Defined.

End Decomposer.

(* ===================================================================== *)
(** ** Results on the rule hash and the duplicate reports *)
(* ===================================================================== *)

Section Duplicates.

Import Analyzer.
Implicit Types (sel : string) (r : style_rule) (rules : list style_rule).

Lemma append_inv_head (s x y : string) : s +:+ x = s +:+ y → x = y.
Proof. induction s as [|c s IH]; simpl; [done |]. intros [= H]. by apply IH. Qed.

Lemma hash_rule_same_selector sel d1 d2 :
  _hash_rule sel d1 = _hash_rule sel d2 ↔ normalize d1 = normalize d2.
Proof.
  unfold _hash_rule. split.
  - intros H%append_inv_head. by injection H.
  - by intros ->.
Qed.

(** Without the separator in the selectors, the hash determines both the
    selector and the normalized declarations. *)
Lemma hash_rule_inj sel1 sel2 d1 d2 :
  has_char "|" sel1 = false → has_char "|" sel2 = false →
  _hash_rule sel1 d1 = _hash_rule sel2 d2 →
  sel1 = sel2 ∧ normalize d1 = normalize d2.
Proof.
  unfold _hash_rule. generalize (normalize d1) (normalize d2). intros n1 n2.
  revert sel2. induction sel1 as [|c s1 IH]; intros [|c2 s2]; simpl.
  - intros _ _ [= H]. by subst.
  - intros _ [Hc _]%orb_false_iff [= <- _]. by rewrite bool_decide_eq_true_2 in Hc.
  - intros [Hc _]%orb_false_iff _ [= -> _]. by rewrite bool_decide_eq_true_2 in Hc.
  - intros [_ H1]%orb_false_iff [_ H2]%orb_false_iff [= -> H].
    destruct (IH s2 H1 H2 H) as [-> ->]. done.
Qed.

Lemma split_hash_rule sel d :
  has_char "|" sel = false → Str.split "|" (_hash_rule sel d) !! 0%nat = Some sel.
Proof.
  unfold _hash_rule. induction sel as [|c s IH]; simpl; [done |].
  intros [Hc Hs]%orb_false_iff. rewrite Hc.
  specialize (IH Hs). destruct (Str.split "|" (s +:+ "|" +:+ normalize d)); simpl in *;
    by simplify_eq.
Qed.

Lemma duplicate_rules_pair r1 r2 (cs ns ts : gset string) :
  duplicate_rules (parse_css_files [r1; r2] (Analyzer cs ns ts [] [])) =
  if bool_decide (rule_key r1 = rule_key r2)
  then [(rule_key r1, [location r1; location r2])]
  else [(rule_key r1, [location r1]); (rule_key r2, [location r2])].
Proof. done. Qed.

(** C5: with two identical rules on the attribute selector [[lang|=en]]
    the report has one entry with count 2 and both locations in input
    order, but its [rule] field is [[lang], the text before the first bar
    of the hash, and not the selector. *)
Theorem duplicate_rule_field_cut_at_bar :
  find_duplicate_rules
    (parse_css_files
       [StyleRule "a.css" "[lang|=en]" "color: red";
        StyleRule "b.css" "[lang|=en]" "color: red"] init)
  = Some [DupRule "[lang" 2 [("a.css", "[lang|=en]"); ("b.css", "[lang|=en]")]] ∧
  "[lang" ≠ "[lang|=en]".
Proof. split; [vm_compute; reflexivity | discriminate]. Qed.

Lemma css_selectors_built rules (cs ns ts : gset string) sel :
  dd_get sel (css_selectors (parse_css_files rules (Analyzer cs ns ts [] [])))
  = css_file <$> occurrences sel rules.
Proof. by rewrite css_selectors_parse. Qed.

Lemma css_selectors_built_wf rules (cs ns ts : gset string) :
  well_formed (css_selectors (parse_css_files rules (Analyzer cs ns ts [] []))).
Proof. apply parse_css_files_well_formed; apply well_formed_nil. Qed.

(** C6: after the rules have been read into a fresh index, the selectors
    reported by [find_duplicate_selectors] are exactly the selector texts
    carried by at least two input rules, each reported once; the count of
    an entry is the number of input rules with that selector text and its
    files are the files of those rules in input order, so a selector
    repeated within one file counts twice. *)
Theorem find_duplicate_selectors_exact
    (rules : list style_rule) (cs ns ts : gset string) :
  (∀ sel : string,
     sel ∈ ds_selector <$>
             find_duplicate_selectors
               (parse_css_files rules (Analyzer cs ns ts [] []))
     ↔ (2 ≤ length (occurrences sel rules))%nat) ∧
  (∀ d : dup_selector,
     d ∈ find_duplicate_selectors
           (parse_css_files rules (Analyzer cs ns ts [] [])) →
     ds_count d = length (occurrences (ds_selector d) rules) ∧
     ds_files d = css_file <$> occurrences (ds_selector d) rules) ∧
  NoDup (ds_selector <$>
           find_duplicate_selectors
             (parse_css_files rules (Analyzer cs ns ts [] []))) ∧
  find_duplicate_selectors
    (parse_css_files
       [StyleRule "a.css" ".btn" "padding: 4px";
        StyleRule "a.css" ".btn" "padding: 4px";
        StyleRule "a.css" ".once" "margin: 0"] init)
  = [DupSelector ".btn" 2 ["a.css"; "a.css"]].
Proof.
  pose proof (css_selectors_built_wf rules cs ns ts) as [Hnd Hne].
  assert (∀ d : dup_selector,
            d ∈ find_duplicate_selectors
                  (parse_css_files rules (Analyzer cs ns ts [] [])) →
            ds_files d = css_file <$> occurrences (ds_selector d) rules ∧
            ds_count d = length (ds_files d) ∧ 1 < length (ds_files d)) as Hd.
  { intros d (Hin & Hc & Hl)%elem_of_dup_selectors_of.
    apply (dd_elem_get _ _ _ Hnd) in Hin. rewrite css_selectors_built in Hin.
    done. }
  split_and!.
  - intros sel. split.
    + intros (d & -> & Hin)%list_elem_of_fmap.
      destruct (Hd d Hin) as (Hf & _ & Hl). rewrite Hf, length_fmap in Hl. lia.
    + intros Hlen. apply list_elem_of_fmap.
      exists (DupSelector sel (length (css_file <$> occurrences sel rules))
                (css_file <$> occurrences sel rules)).
      split; [done |]. apply elem_of_dup_selectors_of. simpl.
      split_and!; [| done | rewrite length_fmap; lia].
      rewrite <- (css_selectors_built rules cs ns ts sel). apply dd_get_elem.
      rewrite css_selectors_built. intros Hnil.
      apply (f_equal length) in Hnil. rewrite length_fmap in Hnil. simpl in Hnil. lia.
  - intros d Hin. destruct (Hd d Hin) as (Hf & Hc & _).
    split; [| done]. by rewrite Hc, Hf, length_fmap.
  - eapply sublist_NoDup; [exact Hnd |]. apply dup_selectors_of_sublist.
  - vm_compute. reflexivity.
Qed.

(** C8: the decomposer is a total function into three sets, and returns
    them on the empty string, on a selector made of combinators only and
    on selectors with unmatched parentheses and brackets; on every
    analyzer state, the empty one included, the three reports are
    returned as lists, the indexing of the split hash in
    [find_duplicate_rules] never failing. *)
Theorem analysis_total :
  (∀ sel : string,
     ∃ cs ns ts : gset string,
       _extract_selector_components sel = Components cs ns ts) ∧
  _extract_selector_components "" = Components ∅ ∅ ∅ ∧
  _extract_selector_components "> + ~" = Components ∅ ∅ ∅ ∧
  _extract_selector_components "a:not(.b" = Components {["b"]} ∅ {["a"; "b"]} ∧
  _extract_selector_components "ul li)) [x=("
    = Components ∅ ∅ {["ul"; "li"; "x"]} ∧
  (∀ st : analyzer,
     (∃ us, find_unused_selectors st = us) ∧
     (∃ ds, find_duplicate_selectors st = ds) ∧
     (∃ drs, find_duplicate_rules st = Some drs)) ∧
  (∀ cs ns ts : gset string,
     find_unused_selectors (Analyzer cs ns ts [] []) = [] ∧
     find_duplicate_selectors (Analyzer cs ns ts [] []) = [] ∧
     find_duplicate_rules (Analyzer cs ns ts [] []) = Some []).
Proof.
  split_and!.
  - intros sel. destruct (_extract_selector_components sel) as [cs ns ts]. by eauto.
  - vm_compute. reflexivity.
  - vm_compute. reflexivity.
  - vm_compute. reflexivity.
  - vm_compute. reflexivity.
  - intros st. split_and!; [by eexists | by eexists |]. apply dup_rules_of_total.
  - intros cs ns ts. split_and!; reflexivity.
Qed.

End Duplicates.

(* ===================================================================== *)
(** ** The rule index: content, invariants and order *)
(* ===================================================================== *)

Section IndexContent.

Import Analyzer.
Implicit Types (st : analyzer) (r : style_rule) (rules : list style_rule).

Lemma recorded_append {V} k (v : V) (d : table V) :
  recorded (dd_append k v d) = S (recorded d).
Proof.
  unfold recorded. induction d as [|[k' vs] d IH]; [done |].
  cbn [dd_append]. destruct (bool_decide (k' = k)); csimpl.
  - rewrite length_app. simpl. lia.
  - rewrite IH. lia.
Qed.

Lemma keys_append_first {V} k (v : V) (d : table V) :
  (dd_append k v d).*1 = d.*1 ++ filter (λ y, y ∉ d.*1) [k].
Proof.
  rewrite dd_append_keys. rewrite filter_cons, filter_nil.
  destruct (decide (k ∈ d.*1)) as [Hin|Hin].
  - rewrite bool_decide_eq_true_2 by done. rewrite decide_False by tauto.
    by rewrite app_nil_r.
  - rewrite bool_decide_eq_false_2 by done. by rewrite decide_True.
Qed.

Lemma css_selectors_keys rules st :
  (css_selectors (parse_css_files rules st)).*1 =
  (css_selectors st).*1
    ++ filter (λ y, y ∉ (css_selectors st).*1)
         (first_occurrences (selectorText <$> rules)).
Proof.
  revert st. induction rules as [|r rules IH]; intros st.
  - by rewrite app_nil_r.
  - rewrite parse_css_files_cons, IH. cbn [add_style_rule css_selectors].
    rewrite dd_append_keys, fmap_cons. cbn [first_occurrences].
    rewrite filter_cons, list_filter_filter.
    destruct (decide (selectorText r ∈ (css_selectors st).*1)) as [Hin|Hin].
    + rewrite bool_decide_eq_true_2 by done. rewrite decide_False by tauto.
      f_equal. apply list_filter_iff. intros y. split; [| tauto].
      intros Hy. split; [done |]. by intros ->.
    + rewrite bool_decide_eq_false_2 by done. rewrite decide_True by done.
      rewrite <- app_assoc. f_equal. simpl. f_equal.
      apply list_filter_iff. intros y. rewrite elem_of_app, list_elem_of_singleton.
      tauto.
Qed.

Lemma parse_css_files_recorded rules st :
  recorded (css_selectors (parse_css_files rules st))
    = recorded (css_selectors st) + length rules ∧
  recorded (duplicate_rules (parse_css_files rules st))
    = recorded (duplicate_rules st) + length rules.
Proof.
  revert st. induction rules as [|r rules IH]; intros st; [simpl; lia |].
  rewrite parse_css_files_cons. destruct (IH (add_style_rule st r)) as [-> ->].
  cbn [add_style_rule css_selectors duplicate_rules].
  rewrite !recorded_append. simpl. lia.
Qed.

Lemma duplicate_rules_built rules (cs ns ts : gset string) h :
  dd_get h (duplicate_rules (parse_css_files rules (Analyzer cs ns ts [] [])))
  = location <$> keyed h rules.
Proof. by rewrite duplicate_rules_parse. Qed.

Lemma duplicate_rules_built_wf rules (cs ns ts : gset string) :
  well_formed (duplicate_rules (parse_css_files rules (Analyzer cs ns ts [] []))).
Proof. apply parse_css_files_well_formed; apply well_formed_nil. Qed.

Lemma fmap_nil_iff {A B} (f : A → B) (l : list A) : f <$> l = [] ↔ l = [].
Proof. destruct l; split; done. Qed.

Lemma css_selectors_entries
    (rules : list style_rule) (cs ns ts : gset string)
    (sel : string) (fs : list string) :
  (sel, fs) ∈ css_selectors (parse_css_files rules (Analyzer cs ns ts [] []))
  ↔ fs = css_file <$> occurrences sel rules ∧ occurrences sel rules ≠ [].
Proof.
  destruct (css_selectors_built_wf rules cs ns ts) as [Hnd Hne].
  rewrite (dd_elem_iff _ _ _ Hnd Hne), css_selectors_built. split.
  - intros [<- Hfs]. split; [done |]. by rewrite fmap_nil_iff in Hfs.
  - intros [-> Hocc]. split; [done |]. by rewrite fmap_nil_iff.
Qed.

(** X1: after the rules are read into a fresh index, an entry of the
    selector table is exactly a selector text that occurs in the input
    together with the files of all rules carrying it, in input order;
    a selector that does not occur has no entry. *)
Theorem selector_index_entries
    (rules : list style_rule) (cs ns ts : gset string)
    (sel : string) (fs : list string) :
  (sel, fs) ∈ css_selectors (parse_css_files rules (Analyzer cs ns ts [] []))
  ↔ fs = css_file <$> occurrences sel rules ∧ occurrences sel rules ≠ [].
Proof. apply css_selectors_entries. Qed.

Lemma duplicate_rules_entries
    (rules : list style_rule) (cs ns ts : gset string)
    (h : string) (locs : list (string * string)) :
  (h, locs) ∈ duplicate_rules (parse_css_files rules (Analyzer cs ns ts [] []))
  ↔ locs = location <$> keyed h rules ∧ keyed h rules ≠ [].
Proof.
  destruct (duplicate_rules_built_wf rules cs ns ts) as [Hnd Hne].
  rewrite (dd_elem_iff _ _ _ Hnd Hne), duplicate_rules_built. split.
  - intros [<- Hfs]. split; [done |]. by rewrite fmap_nil_iff in Hfs.
  - intros [-> Hocc]. split; [done |]. by rewrite fmap_nil_iff.
Qed.

(** X2: likewise an entry of the rule table is exactly a hash some input
    rule has, together with the (file, selector) pairs of all rules with
    that hash, in input order. *)
Theorem rule_index_entries
    (rules : list style_rule) (cs ns ts : gset string)
    (h : string) (locs : list (string * string)) :
  (h, locs) ∈ duplicate_rules (parse_css_files rules (Analyzer cs ns ts [] []))
  ↔ locs = location <$> keyed h rules ∧ keyed h rules ≠ [].
Proof. apply duplicate_rules_entries. Qed.

(** X3: reading rules into any analyzer state records every rule once in
    each table (nothing is dropped or merged away: the number of recorded
    values grows by the number of rules) and leaves the three markup fact
    sets as they were. *)
Theorem parse_css_files_records_every_rule
    (rules : list style_rule) (st : analyzer) :
  recorded (css_selectors (parse_css_files rules st))
    = recorded (css_selectors st) + length rules ∧
  recorded (duplicate_rules (parse_css_files rules st))
    = recorded (duplicate_rules st) + length rules ∧
  html_classes (parse_css_files rules st) = html_classes st ∧
  html_ids (parse_css_files rules st) = html_ids st ∧
  html_tags (parse_css_files rules st) = html_tags st.
Proof.
  destruct (parse_css_files_recorded rules st) as [H1 H2].
  destruct (parse_css_files_facts rules st) as (H3 & H4 & H5). done.
Qed.

(** X4: reading rules keeps both tables well formed: a key never gets a
    second entry and no entry has an empty value list. *)
Theorem parse_css_files_keeps_well_formed
    (rules : list style_rule) (st : analyzer) :
  well_formed (css_selectors st) → well_formed (duplicate_rules st) →
  well_formed (css_selectors (parse_css_files rules st)) ∧
  well_formed (duplicate_rules (parse_css_files rules st)).
Proof. apply parse_css_files_well_formed. Qed.

(** The same for two rules read after one rule has been read. *)
Lemma parse_css_files_keeps_well_formed_witness :
  well_formed
    (css_selectors
       (parse_css_files
          [StyleRule "a.css" ".x" "color: red"; StyleRule "b.css" ".x" "margin: 0"]
          (parse_css_files [StyleRule "a.css" "p" "margin: 0"] init))) ∧
  well_formed
    (duplicate_rules
       (parse_css_files
          [StyleRule "a.css" ".x" "color: red"; StyleRule "b.css" ".x" "margin: 0"]
          (parse_css_files [StyleRule "a.css" "p" "margin: 0"] init))).
Proof.
  apply (parse_css_files_keeps_well_formed
           [StyleRule "a.css" ".x" "color: red"; StyleRule "b.css" ".x" "margin: 0"]
           (parse_css_files [StyleRule "a.css" "p" "margin: 0"] init)).
  - split; [apply NoDup_singleton | by repeat constructor].
  - split; [apply NoDup_singleton | by repeat constructor].
Defined.

(** X5: the selector table of a fresh index lists the distinct selector
    texts in the order of their first occurrence in the input, and the
    unused report and the duplicate-selector report follow that order. *)
Theorem reports_follow_first_occurrence
    (rules : list style_rule) (cs ns ts : gset string) :
  (css_selectors (parse_css_files rules (Analyzer cs ns ts [] []))).*1
    = first_occurrences (selectorText <$> rules) ∧
  sublist
    (u_selector <$>
       find_unused_selectors (parse_css_files rules (Analyzer cs ns ts [] [])))
    (first_occurrences (selectorText <$> rules)) ∧
  sublist
    (ds_selector <$>
       find_duplicate_selectors (parse_css_files rules (Analyzer cs ns ts [] [])))
    (first_occurrences (selectorText <$> rules)).
Proof.
  assert ((css_selectors (parse_css_files rules (Analyzer cs ns ts [] []))).*1
          = first_occurrences (selectorText <$> rules)) as Hkeys.
  { rewrite css_selectors_keys. simpl.
    induction (first_occurrences (selectorText <$> rules)) as [|x l IH]; [done |].
    rewrite filter_cons, decide_True by apply not_elem_of_nil. by rewrite IH. }
  split_and!; [done | |].
  - rewrite <- Hkeys. unfold find_unused_selectors.
    rewrite unused_of_selectors. apply sublist_filter.
  - rewrite <- Hkeys. apply dup_selectors_of_sublist.
Qed.

End IndexContent.

(* ===================================================================== *)
(** ** The reports on an index read from rules *)
(* ===================================================================== *)

Section Reports.

Import Analyzer.
Local Open Scope nat_scope.
Implicit Types (st : analyzer) (r : style_rule) (rules : list style_rule).

Lemma elem_of_dup_rules_of (items : table (string * string)) ds (d : dup_rule) :
  dup_rules_of items = Some ds →
  d ∈ ds ↔
    ∃ h, (h, dr_locations d) ∈ items ∧
         1 < length (dr_locations d) ∧
         dr_count d = length (dr_locations d) ∧
         Str.split "|" h !! 0%nat = Some (dr_rule d).
Proof.
  revert ds. induction items as [|[h locs] items IH]; intros ds; simpl.
  - intros [= <-]. split; [by intros ?%elem_of_nil |].
    by intros (? & ?%elem_of_nil & _).
  - destruct (1 <? length locs)%nat eqn:Hlen.
    + apply Nat.ltb_lt in Hlen.
      destruct (Str.split "|" h !! 0%nat) as [sel|] eqn:Hsel; [| done].
      destruct (dup_rules_of items) as [ds'|] eqn:Hds; [| done].
      simpl. intros [= <-]. rewrite elem_of_cons, (IH ds' eq_refl). split.
      * intros [-> | (h' & Hin & ?)]; [exists h | exists h'];
          rewrite elem_of_cons; simpl; by auto.
      * intros (h' & [Heq | Hin]%elem_of_cons & Hl & Hc & Hs).
        -- left. destruct d as [x n l]; simpl in *. by simplify_eq.
        -- right. by exists h'.
    + apply Nat.ltb_ge in Hlen. intros Hds. rewrite (IH ds Hds). split.
      * intros (h' & Hin & ?). exists h'. rewrite elem_of_cons. by auto.
      * intros (h' & [Heq | Hin]%elem_of_cons & Hl & Hc & Hs).
        -- simplify_eq. lia.
        -- by exists h'.
Qed.

Lemma dup_selectors_built rules (cs ns ts : gset string) (d : dup_selector) :
  d ∈ find_duplicate_selectors (parse_css_files rules (Analyzer cs ns ts [] []))
  ↔ ds_files d = css_file <$> occurrences (ds_selector d) rules ∧
    ds_count d = length (occurrences (ds_selector d) rules) ∧
    (2 ≤ length (occurrences (ds_selector d) rules))%nat.
Proof.
  unfold find_duplicate_selectors.
  rewrite elem_of_dup_selectors_of, css_selectors_entries. split.
  - intros ((Hf & _) & Hc & Hl). rewrite Hc, Hf, length_fmap in *. done.
  - intros (Hf & Hc & Hl). rewrite Hc, Hf, length_fmap. split_and!; try done.
    intros Hnil. rewrite Hnil in Hl. simpl in Hl. lia.
Qed.

Lemma dup_rules_built
    (rules : list style_rule) (cs ns ts : gset string) :
  ∃ ds, find_duplicate_rules (parse_css_files rules (Analyzer cs ns ts [] []))
        = Some ds ∧
        ∀ d : dup_rule,
          d ∈ ds ↔
            ∃ h, (2 ≤ length (keyed h rules))%nat ∧
                 dr_locations d = location <$> keyed h rules ∧
                 dr_count d = length (keyed h rules) ∧
                 Str.split "|" h !! 0%nat = Some (dr_rule d).
Proof.
  unfold find_duplicate_rules.
  destruct (dup_rules_of_total
              (duplicate_rules (parse_css_files rules (Analyzer cs ns ts [] []))))
    as [ds Hds].
  exists ds. split; [done |]. intros d.
  rewrite (elem_of_dup_rules_of _ _ _ Hds). split.
  - intros (h & (Hl & Hne)%duplicate_rules_entries & Hlen & Hc & Hs). exists h.
    rewrite Hc, Hl, length_fmap in *. split_and!; try done; lia.
  - intros (h & Hlen & Hl & Hc & Hs). exists h.
    rewrite duplicate_rules_entries, Hc, Hl, length_fmap.
    assert (keyed h rules ≠ []) as Hne.
    { intros Hnil. rewrite Hnil in Hlen. simpl in Hlen. lia. }
    split_and!; try done; lia.
Qed.

(** X6: on a fresh index [find_duplicate_rules] returns a list, and an
    entry is in it exactly when some hash is shared by at least two input
    rules: [locations] are the (file, selector) pairs of the rules with
    that hash in input order, [count] is their number and [rule] is the
    hash up to its first bar. *)
Theorem find_duplicate_rules_exact
    (rules : list style_rule) (cs ns ts : gset string) :
  ∃ ds, find_duplicate_rules (parse_css_files rules (Analyzer cs ns ts [] []))
        = Some ds ∧
        ∀ d : dup_rule,
          d ∈ ds ↔
            ∃ h, (2 ≤ length (keyed h rules))%nat ∧
                 dr_locations d = location <$> keyed h rules ∧
                 dr_count d = length (keyed h rules) ∧
                 Str.split "|" h !! 0%nat = Some (dr_rule d).
Proof. apply dup_rules_built. Qed.

Lemma keyed_bar_free rules r0 :
  bar_free rules → r0 ∈ rules →
  keyed (rule_key r0) rules
  = filter (λ r, selectorText r = selectorText r0 ∧
                 normalize (cssText r) = normalize (cssText r0)) rules.
Proof.
  intros Hbf Hr0. unfold bar_free in Hbf. rewrite Forall_forall in Hbf.
  assert (∀ l, (∀ r, r ∈ l → r ∈ rules) →
               keyed (rule_key r0) l
               = filter (λ r, selectorText r = selectorText r0 ∧
                              normalize (cssText r) = normalize (cssText r0)) l)
    as Hgen.
  { induction l as [|r l IH]; intros Hl; [done |]. unfold keyed in *.
    rewrite !filter_cons, IH by (intros; apply Hl; by right).
    assert (r ∈ rules) as Hr by (apply Hl; left).
    destruct (decide (rule_key r = rule_key r0)) as [Hk|Hk].
    - apply hash_rule_inj in Hk; [| by apply Hbf | by apply Hbf].
      by rewrite decide_True.
    - rewrite decide_False; [done |]. intros [Hs Hn]. apply Hk.
      unfold rule_key, _hash_rule. by rewrite Hs, Hn. }
  by apply Hgen.
Qed.

Lemma duplicate_rules_group_one_selector_aux
    rules (cs ns ts : gset string) ds (d : dup_rule) :
  bar_free rules →
  find_duplicate_rules (parse_css_files rules (Analyzer cs ns ts [] [])) = Some ds →
  d ∈ ds →
  ∃ n, dr_locations d
       = location <$>
           filter (λ r, selectorText r = dr_rule d ∧ normalize (cssText r) = n) rules ∧
       dr_count d = length (dr_locations d) ∧
       2 ≤ length (dr_locations d).
Proof.
  intros Hbf Hds Hd.
  destruct (dup_rules_built rules cs ns ts) as (ds' & Hds' & Hchar).
  rewrite Hds in Hds'. injection Hds' as <-.
  apply Hchar in Hd as (h & Hlen & Hl & Hc & Hs).
  destruct (keyed h rules) as [|r0 l] eqn:Hk; [simpl in Hlen; lia |].
  assert (r0 ∈ keyed h rules) as Hr0 by (rewrite Hk; left).
  unfold keyed in Hr0. apply list_elem_of_filter in Hr0 as [Hh Hr0].
  assert (selectorText r0 = dr_rule d) as Hsel.
  { pose proof Hbf as Hbf'. unfold bar_free in Hbf'. rewrite Forall_forall in Hbf'.
    rewrite <- Hh in Hs. unfold rule_key in Hs.
    rewrite split_hash_rule in Hs by by apply Hbf'. by injection Hs. }
  exists (normalize (cssText r0)). split_and!.
  - rewrite Hl, <- Hk, <- Hh, (keyed_bar_free rules r0 Hbf Hr0), Hsel. done.
  - by rewrite Hc, Hl, length_fmap.
  - by rewrite Hl, length_fmap.
Qed.

(** X7: when no selector of the input contains a bar, every entry of the
    duplicate-rule report groups exactly the input rules that have the
    selector text shown in its [rule] field and one common normalized
    declaration text; in particular every location of the entry carries
    that selector. *)
Theorem duplicate_rules_group_one_selector
    (rules : list style_rule) (cs ns ts : gset string)
    (ds : list dup_rule) (d : dup_rule) :
  bar_free rules →
  find_duplicate_rules (parse_css_files rules (Analyzer cs ns ts [] [])) = Some ds →
  d ∈ ds →
  (∃ n, dr_locations d
        = location <$>
            filter (λ r, selectorText r = dr_rule d ∧ normalize (cssText r) = n)
              rules) ∧
  (∀ loc, loc ∈ dr_locations d → loc.2 = dr_rule d).
Proof.
  intros Hbf Hds Hd.
  destruct (dup_rules_built rules cs ns ts) as (ds' & Hds' & Hchar).
  rewrite Hds in Hds'. injection Hds' as <-.
  apply Hchar in Hd as (h & Hlen & Hl & Hc & Hs).
  destruct (keyed h rules) as [|r0 l] eqn:Hk; [simpl in Hlen; lia |].
  assert (r0 ∈ keyed h rules) as Hr0 by (rewrite Hk; left).
  unfold keyed in Hr0. apply list_elem_of_filter in Hr0 as [Hh Hr0].
  assert (selectorText r0 = dr_rule d) as Hsel.
  { pose proof Hbf as Hbf'. unfold bar_free in Hbf'. rewrite Forall_forall in Hbf'.
    rewrite <- Hh in Hs. unfold rule_key in Hs.
    rewrite split_hash_rule in Hs by by apply Hbf'. by injection Hs. }
  assert (dr_locations d
          = location <$>
              filter (λ r, selectorText r = dr_rule d ∧
                           normalize (cssText r) = normalize (cssText r0)) rules)
    as Hloc.
  { rewrite Hl, <- Hk, <- Hh, (keyed_bar_free rules r0 Hbf Hr0), Hsel. done. }
  split; [by eauto |].
  intros loc. rewrite Hloc. intros (r & -> & Hr)%list_elem_of_fmap.
  apply list_elem_of_filter in Hr as [[Hr _] _]. done.
Qed.

(** The same on two files that define one rule verbatim. *)
Lemma duplicate_rules_group_one_selector_witness :
  bar_free
    [StyleRule "a.css" ".btn" "padding: 4px"; StyleRule "b.css" ".btn" "padding:  4px"] ∧
  (∃ n, [("a.css", ".btn"); ("b.css", ".btn")]
        = location <$>
            filter (λ r, selectorText r = ".btn" ∧ normalize (cssText r) = n)
              [StyleRule "a.css" ".btn" "padding: 4px";
               StyleRule "b.css" ".btn" "padding:  4px"]) ∧
  (∀ loc, loc ∈ [("a.css", ".btn"); ("b.css", ".btn")] → loc.2 = ".btn").
Proof.
  assert (bar_free
            [StyleRule "a.css" ".btn" "padding: 4px";
             StyleRule "b.css" ".btn" "padding:  4px"]) as Hbf
    by (by repeat constructor).
  split; [exact Hbf |].
  apply (duplicate_rules_group_one_selector
           [StyleRule "a.css" ".btn" "padding: 4px";
            StyleRule "b.css" ".btn" "padding:  4px"] ∅ ∅ ∅
           [DupRule ".btn" 2 [("a.css", ".btn"); ("b.css", ".btn")]]
           (DupRule ".btn" 2 [("a.css", ".btn"); ("b.css", ".btn")]) Hbf).
  - vm_compute. reflexivity.
  - left.
Defined.

Lemma length_filter_and {A} (P Q : A → Prop)
    `{!∀ x, Decision (P x)} `{!∀ x, Decision (Q x)} (l : list A) :
  length (filter (λ x, P x ∧ Q x) l) ≤ length (filter P l).
Proof.
  induction l as [|x l IH]; [done |]. rewrite !filter_cons.
  destruct (decide (P x)) as [Hp|Hp].
  - destruct (decide (P x ∧ Q x)); simpl; lia.
  - rewrite decide_False by tauto. done.
Qed.

(** X8: when no selector of the input contains a bar, every duplicate rule
    is also a duplicate selector: the selector in the [rule] field of an
    entry of [find_duplicate_rules] is reported by
    [find_duplicate_selectors], with a count at least as large. *)
Theorem duplicate_rule_is_duplicate_selector
    (rules : list style_rule) (cs ns ts : gset string)
    (ds : list dup_rule) (d : dup_rule) :
  bar_free rules →
  find_duplicate_rules (parse_css_files rules (Analyzer cs ns ts [] [])) = Some ds →
  d ∈ ds →
  ∃ e : dup_selector,
    e ∈ find_duplicate_selectors (parse_css_files rules (Analyzer cs ns ts [] [])) ∧
    ds_selector e = dr_rule d ∧ dr_count d ≤ ds_count e.
Proof.
  intros Hbf Hds Hd.
  destruct (duplicate_rules_group_one_selector_aux rules cs ns ts ds d Hbf Hds Hd)
    as (n & Hloc & Hc & Hlen).
  assert (dr_count d ≤ length (occurrences (dr_rule d) rules)) as Hle.
  { rewrite Hc, Hloc, length_fmap. apply length_filter_and. }
  exists (DupSelector (dr_rule d) (length (occurrences (dr_rule d) rules))
            (css_file <$> occurrences (dr_rule d) rules)).
  split_and!; [| done | done].
  apply dup_selectors_built. simpl. split_and!; [done | done | lia].
Qed.

(** The same on two files that define one rule verbatim. *)
Lemma duplicate_rule_is_duplicate_selector_witness :
  bar_free
    [StyleRule "a.css" ".btn" "padding: 4px"; StyleRule "b.css" ".btn" "padding: 4px"] ∧
  ∃ e : dup_selector,
    e ∈ find_duplicate_selectors
          (parse_css_files
             [StyleRule "a.css" ".btn" "padding: 4px";
              StyleRule "b.css" ".btn" "padding: 4px"] (Analyzer ∅ ∅ ∅ [] [])) ∧
    ds_selector e = ".btn" ∧ 2 ≤ ds_count e.
Proof.
  assert (bar_free
            [StyleRule "a.css" ".btn" "padding: 4px";
             StyleRule "b.css" ".btn" "padding: 4px"]) as Hbf
    by (by repeat constructor).
  split; [exact Hbf |].
  apply (duplicate_rule_is_duplicate_selector
           [StyleRule "a.css" ".btn" "padding: 4px";
            StyleRule "b.css" ".btn" "padding: 4px"] ∅ ∅ ∅
           [DupRule ".btn" 2 [("a.css", ".btn"); ("b.css", ".btn")]]
           (DupRule ".btn" 2 [("a.css", ".btn"); ("b.css", ".btn")]) Hbf).
  - vm_compute. reflexivity.
  - left.
Defined.

(** X9: the index accumulates.  Reading the same rules a second time into
    the state left by the first reading makes every selector of the input
    a duplicate: it is reported with twice its number of occurrences, its
    files listed twice over. *)
Theorem reading_twice_duplicates_everything
    (rules : list style_rule) (cs ns ts : gset string) (r : style_rule) :
  r ∈ rules →
  DupSelector (selectorText r)
    (2 * length (occurrences (selectorText r) rules))
    ((css_file <$> occurrences (selectorText r) rules)
       ++ (css_file <$> occurrences (selectorText r) rules))
  ∈ find_duplicate_selectors
      (parse_css_files rules (parse_css_files rules (Analyzer cs ns ts [] []))).
Proof.
  intros Hr.
  assert (r ∈ occurrences (selectorText r) rules) as Hocc
    by (by apply list_elem_of_filter).
  assert (0 < length (occurrences (selectorText r) rules)) as Hpos.
  { destruct (occurrences (selectorText r) rules); [by apply elem_of_nil in Hocc |].
    simpl. lia. }
  apply elem_of_dup_selectors_of. simpl. rewrite length_app, !length_fmap.
  split_and!; [| lia | lia].
  pose proof (css_selectors_parse (selectorText r) rules
                (parse_css_files rules (Analyzer cs ns ts [] []))) as Hget.
  rewrite css_selectors_built in Hget. fold (occurrences (selectorText r) rules) in Hget.
  rewrite <- Hget. apply dd_get_elem. rewrite Hget.
  intros Hnil. apply (f_equal length) in Hnil.
  rewrite length_app, !length_fmap in Hnil. simpl in Hnil. lia.
Qed.

(** The same on one rule. *)
Lemma reading_twice_duplicates_everything_witness :
  DupSelector "p" 2 ["a.css"; "a.css"]
  ∈ find_duplicate_selectors
      (parse_css_files [StyleRule "a.css" "p" "margin: 0"]
         (parse_css_files [StyleRule "a.css" "p" "margin: 0"] (Analyzer ∅ ∅ ∅ [] []))).
Proof.
  apply (reading_twice_duplicates_everything
           [StyleRule "a.css" "p" "margin: 0"] ∅ ∅ ∅
           (StyleRule "a.css" "p" "margin: 0")).
  left.
Defined.

(** X10: on an index read from rules the unused report names each selector
    at most once, and the files of an entry are the files of all input
    rules with that selector text, in input order. *)
Theorem unused_entries_on_read_index
    (rules : list style_rule) (cs ns ts : gset string) :
  NoDup (u_selector <$>
           find_unused_selectors (parse_css_files rules (Analyzer cs ns ts [] []))) ∧
  ∀ e : unused_entry,
    e ∈ find_unused_selectors (parse_css_files rules (Analyzer cs ns ts [] [])) →
    u_files e = css_file <$> occurrences (u_selector e) rules ∧
    u_files e ≠ [].
Proof.
  split.
  - eapply sublist_NoDup; [apply (css_selectors_built_wf rules cs ns ts) |].
    unfold find_unused_selectors. rewrite unused_of_selectors. apply sublist_filter.
  - intros e (Hin & _)%elem_of_unused_of.
    apply css_selectors_entries in Hin as [Hf Hne]. split; [done |].
    rewrite Hf. by rewrite fmap_nil_iff.
Qed.

End Reports.

(* ===================================================================== *)
(** ** Whitespace normalization in the rule hash *)
(* ===================================================================== *)

Section Normalize.

Import Re Analyzer.
Local Open Scope nat_scope.

Lemma run_len_le p s : run_len p s ≤ String.length s.
Proof. induction s as [|c s IH]; simpl; [lia |]. destruct (p c); lia. Qed.

(** With a continuation that always answers, the greedy loop stops after
    the longest run. *)
Lemma star_from_longest p pv s g n0 :
  star_from p pv s g
    (λ st, Some (n0 - String.length (rest st), grp st))
  = Some (n0 - (String.length s - run_len p s), g).
Proof.
  revert pv. induction s as [|c s IH]; intros pv; simpl; [done |].
  destruct (p c); [| done]. rewrite IH. done.
Qed.

Lemma match_here_spaces pv s :
  match_here re_spaces pv s =
  match s with
  | EmptyString => None
  | String c s' =>
      if Chars.is_space c then Some (S (run_len Chars.is_space s'), None) else None
  end.
Proof.
  unfold match_here, re_spaces. destruct s as [|c s']; [done |].
  cbn [run step_char rest prev grp]. destruct (Chars.is_space c); [| done].
  cbn [prev rest grp]. rewrite star_from_longest. f_equal. f_equal.
  pose proof (run_len_le Chars.is_space s'). simpl. lia.
Qed.

Lemma sub_spaces_collapse s :
  ∀ pv, sub_from re_spaces " " pv s 0 = collapse false s ∧
        sub_from re_spaces " " pv s (run_len Chars.is_space s) = collapse true s.
Proof.
  induction s as [|c s IH]; intros pv; [done |].
  cbn [sub_from run_len collapse]. rewrite match_here_spaces.
  destruct (Chars.is_space c) eqn:Hc.
  - destruct (IH (Some c)) as [_ ->]. done.
  - destruct (IH (Some c)) as [-> _]. done.
Qed.

Lemma lstrip_collapse_true s : Str.lstrip (collapse true s) = collapse true s.
Proof.
  induction s as [|c s IH]; [done |]. simpl.
  destruct (Chars.is_space c) eqn:Hc; [done |]. simpl. by rewrite Hc.
Qed.

Lemma lstrip_collapse s : Str.lstrip (collapse false s) = collapse true s.
Proof.
  destruct s as [|c s]; [done |]. simpl.
  destruct (Chars.is_space c) eqn:Hc; simpl.
  - apply lstrip_collapse_true.
  - by rewrite Hc.
Qed.

(** The normalization of the hash, without the regular expression. *)
Lemma normalize_collapse d : normalize d = Str.rstrip (collapse true d).
Proof.
  unfold normalize, Str.strip, sub.
  destruct (sub_spaces_collapse d None) as [-> _]. by rewrite lstrip_collapse.
Qed.

Lemma rstrip_cons_nonspace c t :
  Chars.is_space c = false → Str.rstrip (String c t) = String c (Str.rstrip t).
Proof. intros Hc. simpl. rewrite Hc. by destruct (Str.rstrip t). Qed.

Lemma rstrip_cons_space c t :
  Chars.is_space c = true →
  Str.rstrip (String c t)
  = if bool_decide (Str.rstrip t = EmptyString) then EmptyString
    else String c (Str.rstrip t).
Proof. intros Hc. simpl. rewrite Hc. by destruct (Str.rstrip t). Qed.

Lemma squeezed_rstrip_collapse s :
  squeezed true (Str.rstrip (collapse true s)) = true ∧
  squeezed false (Str.rstrip (collapse false s)) = true.
Proof.
  induction s as [|c s [IH1 IH2]]; [done |]. cbn [collapse].
  destruct (Chars.is_space c) eqn:Hc.
  - split; [done |]. rewrite rstrip_cons_space by done.
    case_bool_decide as He; [done |]. cbn [squeezed].
    replace (Chars.is_space " ") with true by done.
    rewrite IH1. rewrite (bool_decide_eq_false_2 _ He).
    by rewrite bool_decide_eq_true_2.
  - rewrite rstrip_cons_nonspace by done. cbn [squeezed]. by rewrite Hc.
Qed.

Lemma rstrip_collapse_squeezed t :
  (squeezed true t = true → Str.rstrip (collapse true t) = t) ∧
  (squeezed false t = true → Str.rstrip (collapse false t) = t).
Proof.
  induction t as [|c t [IH1 IH2]]; [done |]. cbn [collapse squeezed].
  destruct (Chars.is_space c) eqn:Hc.
  - split.
    + rewrite andb_false_r. done.
    + rewrite !andb_true_iff. intros [[[Hcs _] Hne] Hsq].
      apply bool_decide_eq_true in Hcs as ->.
      apply negb_true_iff, bool_decide_eq_false in Hne.
      rewrite rstrip_cons_space by done.
      rewrite (IH1 Hsq). by rewrite bool_decide_eq_false_2.
  - rewrite rstrip_cons_nonspace by done.
    split; intros Hsq; by rewrite (IH2 Hsq).
Qed.

Lemma collapse_true_spaces w b :
  all_chars Chars.is_space w = true → collapse true (w +:+ b) = collapse true b.
Proof.
  induction w as [|c w IH]; [done |]. simpl.
  intros [Hc Hw]%andb_true_iff. rewrite Hc. by apply IH.
Qed.

Lemma collapse_false_spaces w b :
  all_chars Chars.is_space w = true → w ≠ EmptyString →
  collapse false (w +:+ b) = String " " (collapse true b).
Proof.
  destruct w as [|c w]; [done |]. simpl.
  intros [Hc Hw]%andb_true_iff _. rewrite Hc. by rewrite collapse_true_spaces.
Qed.

Lemma collapse_replace_spaces a w1 w2 b flag :
  all_chars Chars.is_space w1 = true → w1 ≠ EmptyString →
  all_chars Chars.is_space w2 = true → w2 ≠ EmptyString →
  collapse flag (a +:+ w1 +:+ b) = collapse flag (a +:+ w2 +:+ b).
Proof.
  intros H1 N1 H2 N2. revert flag. induction a as [|c a IH]; intros flag.
  - change (collapse flag (w1 +:+ b) = collapse flag (w2 +:+ b)). destruct flag.
    + by rewrite !collapse_true_spaces.
    + by rewrite !collapse_false_spaces.
  - change (collapse flag (String c (a +:+ w1 +:+ b))
            = collapse flag (String c (a +:+ w2 +:+ b))).
    cbn [collapse]. destruct (Chars.is_space c); [destruct flag |]; by rewrite ?IH.
Qed.

Lemma collapse_true_all_spaces w :
  all_chars Chars.is_space w = true → collapse true w = EmptyString.
Proof.
  induction w as [|c w IH]; [done |]. simpl.
  intros [Hc Hw]%andb_true_iff. rewrite Hc. by apply IH.
Qed.

Lemma rstrip_collapse_spaces w flag :
  all_chars Chars.is_space w = true →
  Str.rstrip (collapse flag w) = EmptyString.
Proof.
  intros Hw. destruct flag; [by rewrite collapse_true_all_spaces |].
  destruct w as [|c w]; [done |]. simpl in *.
  apply andb_true_iff in Hw as [Hc Hw]. rewrite Hc.
  by rewrite collapse_true_all_spaces.
Qed.

Lemma rstrip_collapse_trailing d w flag :
  all_chars Chars.is_space w = true →
  Str.rstrip (collapse flag (d +:+ w)) = Str.rstrip (collapse flag d).
Proof.
  intros Hw. revert flag. induction d as [|c d IH]; intros flag.
  - change (Str.rstrip (collapse flag w) = Str.rstrip (collapse flag EmptyString)).
    rewrite rstrip_collapse_spaces by done. by destruct flag.
  - change (Str.rstrip (collapse flag (String c (d +:+ w)))
            = Str.rstrip (collapse flag (String c d))).
    cbn [collapse]. destruct (Chars.is_space c) eqn:Hc.
    + destruct flag; [by apply IH |].
      rewrite !rstrip_cons_space by done. by rewrite IH.
    + rewrite !rstrip_cons_nonspace by done. by rewrite IH.
Qed.

(** X11: the normalized declaration text is whitespace-normal: its only
    whitespace characters are single spaces, each between two characters
    that are not whitespace. *)
Theorem normalize_whitespace_normal (css_text : string) :
  whitespace_normal (normalize css_text) = true.
Proof.
  unfold whitespace_normal. rewrite normalize_collapse.
  apply squeezed_rstrip_collapse.
Qed.

(** X12: a declaration text of ASCII characters that is already
    whitespace-normal is left as it is, so the hash of such a rule is the
    selector, a bar and the declaration text as written. *)
Theorem normalize_fixes_normal_text (selector css_text : string) :
  ascii_text css_text = true →
  whitespace_normal css_text = true →
  normalize css_text = css_text ∧
  _hash_rule selector css_text = selector +:+ "|" +:+ css_text.
Proof.
  intros _ Hn. assert (normalize css_text = css_text) as Heq.
  { rewrite normalize_collapse. by apply rstrip_collapse_squeezed. }
  split; [done |]. unfold _hash_rule. by rewrite Heq.
Qed.

(** The same on a text of two declarations. *)
Lemma normalize_fixes_normal_text_witness :
  ascii_text "color: red; margin: 0" = true ∧
  normalize "color: red; margin: 0" = "color: red; margin: 0" ∧
  _hash_rule ".btn" "color: red; margin: 0" = ".btn|color: red; margin: 0".
Proof.
  split; [reflexivity |].
  apply (normalize_fixes_normal_text ".btn" "color: red; margin: 0").
  - reflexivity.
  - vm_compute. reflexivity.
Defined.

(** X13: normalization is idempotent, and hashing a rule is not affected
    by normalizing its declaration text beforehand. *)
Theorem normalize_idempotent (selector css_text : string) :
  normalize (normalize css_text) = normalize css_text ∧
  _hash_rule selector (normalize css_text) = _hash_rule selector css_text.
Proof.
  assert (normalize (normalize css_text) = normalize css_text) as Heq.
  { rewrite (normalize_collapse (normalize css_text)).
    apply rstrip_collapse_squeezed. rewrite normalize_collapse.
    apply squeezed_rstrip_collapse. }
  split; [done |]. unfold _hash_rule. by rewrite Heq.
Qed.

(** X14: replacing a whitespace run inside a declaration text by any other
    non-empty whitespace run (spaces, tabs, line breaks) changes neither
    the normalized text nor the hash of the rule. *)
Theorem hash_ignores_kind_of_whitespace_run (selector a w1 w2 b : string) :
  all_chars Chars.is_space w1 = true → w1 ≠ EmptyString →
  all_chars Chars.is_space w2 = true → w2 ≠ EmptyString →
  normalize (a +:+ w1 +:+ b) = normalize (a +:+ w2 +:+ b) ∧
  _hash_rule selector (a +:+ w1 +:+ b) = _hash_rule selector (a +:+ w2 +:+ b).
Proof.
  intros H1 N1 H2 N2.
  assert (normalize (a +:+ w1 +:+ b) = normalize (a +:+ w2 +:+ b)) as Heq.
  { rewrite !normalize_collapse. by rewrite (collapse_replace_spaces a w1 w2 b). }
  split; [done |]. unfold _hash_rule. by rewrite Heq.
Qed.

(** The same for one space against a line break and two spaces. *)
Lemma hash_ignores_kind_of_whitespace_run_witness :
  normalize ("color:" +:+ " " +:+ "red")
  = normalize ("color:" +:+ String "010" "  " +:+ "red") ∧
  _hash_rule "p" ("color:" +:+ " " +:+ "red")
  = _hash_rule "p" ("color:" +:+ String "010" "  " +:+ "red").
Proof.
  apply (hash_ignores_kind_of_whitespace_run "p" "color:" " " (String "010" "  ") "red").
  - reflexivity.
  - discriminate.
  - reflexivity.
  - discriminate.
Defined.

(** X15: whitespace before and after a declaration text changes neither
    the normalized text nor the hash of the rule. *)
Theorem hash_ignores_outer_whitespace (selector w css_text w' : string) :
  all_chars Chars.is_space w = true →
  all_chars Chars.is_space w' = true →
  normalize (w +:+ css_text +:+ w') = normalize css_text ∧
  _hash_rule selector (w +:+ css_text +:+ w') = _hash_rule selector css_text.
Proof.
  intros Hw Hw'.
  assert (normalize (w +:+ css_text +:+ w') = normalize css_text) as Heq.
  { rewrite !normalize_collapse, collapse_true_spaces by done.
    by apply rstrip_collapse_trailing. }
  split; [done |]. unfold _hash_rule. by rewrite Heq.
Qed.

(** The same for a line break before and a space after. *)
Lemma hash_ignores_outer_whitespace_witness :
  normalize (String "010" " " +:+ "margin: 0" +:+ " ") = normalize "margin: 0" ∧
  _hash_rule "p" (String "010" " " +:+ "margin: 0" +:+ " ") = _hash_rule "p" "margin: 0".
Proof.
  apply (hash_ignores_outer_whitespace "p" (String "010" " ") "margin: 0" " ");
    reflexivity.
Defined.

End Normalize.

(* ===================================================================== *)
(** ** The shape of what the decomposer returns *)
(* ===================================================================== *)

Section Extraction.

Import Re Analyzer.
Local Open Scope nat_scope.

Lemma string_length_append (a b : string) :
  String.length (a +:+ b) = String.length a + String.length b.
Proof. induction a as [|c a IH]; simpl; [done |]. by rewrite IH. Qed.

Lemma substring_prefix (a b : string) :
  substring 0 (String.length a) (a +:+ b) = a.
Proof.
  induction a as [|c a IH]; simpl; [by destruct b |]. by rewrite IH.
Qed.

(** Where the greedy loop hands over, a run of class characters has been
    consumed. *)
Lemma star_from_inv {A} p pv s g (k : mstate → option A) x :
  star_from p pv s g k = Some x →
  ∃ pre post pv',
    s = pre +:+ post ∧ all_chars p pre = true ∧ k (MState pv' post g) = Some x.
Proof.
  revert pv. induction s as [|c s IH]; intros pv; simpl.
  - intros Hk. by exists EmptyString, EmptyString, pv.
  - destruct (p c) eqn:Hp.
    + destruct (star_from p (Some c) s g k) as [y|] eqn:Hs.
      * intros Heq. injection Heq as Heq. subst y.
        destruct (IH (Some c) Hs) as (pre & post & pv' & -> & Hall & Hk).
        exists (String c pre), post, pv'. simpl. by rewrite Hp.
      * intros Hk. by exists EmptyString, (String c s), pv.
    + intros Hk. by exists EmptyString, (String c s), pv.
Qed.

Lemma findall_from_Forall (P : string → Prop) r :
  (∀ pv s m, match_here r pv s = Some m → P (reported r s m)) →
  ∀ s pv skip, Forall P (findall_from r pv s skip).
Proof.
  intros HP. induction s as [|c s IH]; intros pv skip; simpl.
  - destruct skip; [| constructor].
    destruct (match_here r pv EmptyString) as [m|] eqn:Hm; [| constructor].
    constructor; [exact (HP pv _ _ Hm) | constructor].
  - destruct skip; [| apply IH].
    destruct (match_here r pv (String c s)) as [m|] eqn:Hm; [| apply IH].
    constructor; [exact (HP pv _ _ Hm) | apply IH].
Qed.

(** A match of a marker character followed by a captured run of a class
    captures a non-empty text of that class. *)
Lemma match_here_marked x p pv s m :
  match_here (Cat (Lit x) (Grp (Plus p))) pv s = Some m →
  ∃ c g, snd m = Some (String c g) ∧ all_chars p (String c g) = true.
Proof.
  unfold match_here. cbn [run].
  destruct (step_char (Chars.is_char x) (MState pv s None)) as [st1|] eqn:H1; [| done].
  destruct (step_char p st1) as [st2|] eqn:H2; [| done].
  unfold step_char in H2. destruct (rest st1) as [|c s2] eqn:Hr1; [done |].
  destruct (p c) eqn:Hp; [| done]. injection H2 as <-. cbn [prev rest grp].
  intros (pre & post & pv' & -> & Hall & Hk)%star_from_inv.
  cbn [rest prev grp] in Hk. injection Hk as <-. cbn [snd].
  exists c, pre.
  replace (S (String.length (pre +:+ post)) - String.length post)
    with (S (String.length pre)) by (rewrite string_length_append; lia).
  rewrite substring_prefix. simpl. by rewrite Hp, Hall.
Qed.

Lemma match_here_tag pv s m :
  match_here re_tag pv s = Some m →
  ∃ g, snd m = Some g ∧ is_tag_name g = true.
Proof.
  unfold match_here, re_tag. cbn [run].
  destruct (xorb _ _); [| done].
  destruct (step_char Chars.is_lower (MState pv s None)) as [st1|] eqn:H1; [| done].
  unfold step_char in H1. cbn [rest grp] in H1.
  destruct s as [|c s1]; [done |].
  destruct (Chars.is_lower c) eqn:Hc; [| done]. injection H1 as <-.
  cbn [prev rest grp].
  intros (pre & post & pv' & -> & Hall & Hk)%star_from_inv.
  cbn [rest prev grp] in Hk. destruct (xorb _ _); [| done].
  injection Hk as <-. cbn [snd]. exists (String c pre).
  replace (S (String.length (pre +:+ post)) - String.length post)
    with (S (String.length pre)) by (rewrite string_length_append; lia).
  rewrite substring_prefix. simpl. by rewrite Hc, Hall.
Qed.

Lemma findall_marked_names x p s :
  Forall (λ g, g ≠ EmptyString ∧ all_chars p g = true)
    (findall (Cat (Lit x) (Grp (Plus p))) s).
Proof.
  apply findall_from_Forall. intros pv t m Hm.
  apply match_here_marked in Hm as (c & g & Hg & Hall).
  unfold reported. cbn [has_group orb]. rewrite Hg. done.
Qed.

Lemma findall_tag_names s : Forall (λ g, is_tag_name g = true) (findall re_tag s).
Proof.
  apply findall_from_Forall. intros pv t m Hm.
  apply match_here_tag in Hm as (g & Hg & Htag).
  unfold reported. cbn [re_tag has_group orb]. rewrite Hg. done.
Qed.

(** X16: whatever the selector text, every class name and every id name
    the decomposer returns is a non-empty text over [a-zA-Z0-9_-], and
    every tag name it returns is a lower-case letter followed by
    lower-case letters and digits and is none of the four keywords. *)
Theorem decomposition_names_well_formed (selector x : string) :
  (x ∈ classes (_extract_selector_components selector) → is_name x = true) ∧
  (x ∈ ids (_extract_selector_components selector) → is_name x = true) ∧
  (x ∈ tags (_extract_selector_components selector) →
     is_tag_name x = true ∧ x ∉ keywords).
Proof.
  unfold _extract_selector_components. cbn [classes ids tags].
  split_and!.
  - rewrite elem_of_list_to_set. intros Hx.
    pose proof (findall_marked_names "." Chars.is_name_char
                  (sub re_pseudo "" selector)) as Hall.
    rewrite Forall_forall in Hall. destruct (Hall x Hx) as [Hne Hch].
    unfold is_name. by rewrite Hch, bool_decide_eq_false_2.
  - rewrite elem_of_list_to_set. intros Hx.
    pose proof (findall_marked_names "#" Chars.is_name_char
                  (sub re_pseudo "" selector)) as Hall.
    rewrite Forall_forall in Hall. destruct (Hall x Hx) as [Hne Hch].
    unfold is_name. by rewrite Hch, bool_decide_eq_false_2.
  - rewrite elem_of_difference, elem_of_list_to_set. intros [Hx Hkw].
    pose proof (findall_tag_names (Str.lower (sub re_pseudo "" selector))) as Hall.
    rewrite Forall_forall in Hall. split; [by apply Hall | done].
Qed.

(** *** Selectors made of one name *)

Lemma substring_full (a : string) : substring 0 (String.length a) a = a.
Proof. induction a as [|c a IH]; simpl; [done |]. by rewrite IH. Qed.

Lemma all_chars_has_char p x s :
  all_chars p s = true → p x = false → has_char x s = false.
Proof.
  intros Hall Hx. induction s as [|c s IH]; [done |]. simpl in *.
  apply andb_true_iff in Hall as [Hc Hs]. rewrite (IH Hs), orb_false_r.
  apply bool_decide_eq_false. intros ->. congruence.
Qed.

(** When the whole text is in the class and the continuation accepts the
    end of the text, the greedy loop consumes all of it. *)
Lemma star_from_all {A} p pv s g (k : mstate → option A) x :
  all_chars p s = true →
  k (MState (last_char pv s) EmptyString g) = Some x →
  star_from p pv s g k = Some x.
Proof.
  revert pv. induction s as [|c s IH]; intros pv; simpl; [done |].
  intros [Hc Hs]%andb_true_iff Hk. rewrite Hc. by rewrite (IH (Some c) Hs Hk).
Qed.

Lemma sub_pseudo_no_colon s pv :
  has_char ":" s = false → sub_from re_pseudo "" pv s 0 = s.
Proof.
  revert pv. induction s as [|c s IH]; intros pv; [done |]. simpl has_char.
  intros [Hc Hs]%orb_false_iff. cbn [sub_from].
  assert (match_here re_pseudo pv (String c s) = None) as ->.
  { unfold match_here, re_pseudo. cbn [run step_char rest].
    unfold Chars.is_char. by rewrite Hc. }
  by rewrite IH.
Qed.

Lemma findall_no_marker x p s pv skip :
  has_char x s = false →
  findall_from (Cat (Lit x) (Grp (Plus p))) pv s skip = [].
Proof.
  revert pv skip. induction s as [|c s IH]; intros pv skip; simpl has_char.
  - intros _. by destruct skip.
  - intros [Hc Hs]%orb_false_iff. cbn [findall_from]. destruct skip; [| by apply IH].
    assert (match_here (Cat (Lit x) (Grp (Plus p))) pv (String c s) = None) as ->.
    { unfold match_here. cbn [run step_char rest]. unfold Chars.is_char.
      by rewrite Hc. }
    by apply IH.
Qed.

Lemma findall_skip_all r s pv :
  (∀ pv', match_here r pv' EmptyString = None) →
  findall_from r pv s (String.length s) = [].
Proof.
  intros Hend. revert pv. induction s as [|c s IH]; intros pv; simpl.
  - by rewrite Hend.
  - apply IH.
Qed.

Lemma match_here_marked_name x p pv name :
  name ≠ EmptyString → all_chars p name = true →
  match_here (Cat (Lit x) (Grp (Plus p))) pv (String x name)
  = Some (S (String.length name), Some name).
Proof.
  intros Hne Hall. destruct name as [|c n]; [done |]. simpl in Hall.
  apply andb_true_iff in Hall as [Hc Hn].
  unfold match_here. cbn [run step_char rest prev grp]. unfold Chars.is_char.
  rewrite bool_decide_eq_true_2 by done. cbn [rest prev grp].
  unfold step_char. cbn [rest prev grp]. rewrite Hc.
  cbn [rest prev grp]. apply star_from_all; [done |]. cbn [rest prev grp].
  change (String.length EmptyString) with 0.
  rewrite !Nat.sub_0_r. rewrite (substring_full (String c n)). done.
Qed.

Lemma findall_marked_name x p name :
  name ≠ EmptyString → all_chars p name = true →
  findall (Cat (Lit x) (Grp (Plus p))) (String x name) = [name].
Proof.
  intros Hne Hall. unfold findall. cbn [findall_from].
  rewrite match_here_marked_name by done. unfold reported. cbn [has_group orb snd fst].
  replace (S (String.length name) - 1) with (String.length name) by lia.
  rewrite findall_skip_all; [done |]. intros pv'. done.
Qed.

Lemma is_name_inv name :
  is_name name = true →
  name ≠ EmptyString ∧ all_chars Chars.is_name_char name = true ∧
  has_char ":" name = false ∧ has_char "." name = false ∧ has_char "#" name = false.
Proof.
  unfold is_name. intros [Hne Hall]%andb_true_iff.
  apply negb_true_iff, bool_decide_eq_false in Hne.
  split_and!; try done; by apply (all_chars_has_char _ _ _ Hall).
Qed.

Lemma decompose_class_or_id_selector_aux (name : string) :
  is_name name = true →
  classes (_extract_selector_components (String "." name)) = {[name]} ∧
  ids (_extract_selector_components (String "#" name)) = {[name]}.
Proof.
  intros (Hne & Hall & Hcolon & Hdot & Hhash)%is_name_inv.
  unfold _extract_selector_components, sub. cbn [classes ids].
  rewrite !sub_pseudo_no_colon
    by (simpl; by rewrite Hcolon).
  unfold re_class, re_id. rewrite !findall_marked_name by done.
  split; simpl; apply (right_id_L ∅ (∪)).
Qed.

(** X17: the class selector made of a dot and a name decomposes to that
    class and to no id; the id selector made of a hash sign and a name
    decomposes to that id and to no class. *)
Theorem decompose_class_or_id_selector (name : string) :
  is_name name = true →
  classes (_extract_selector_components (String "." name)) = {[name]} ∧
  ids (_extract_selector_components (String "." name)) = ∅ ∧
  ids (_extract_selector_components (String "#" name)) = {[name]} ∧
  classes (_extract_selector_components (String "#" name)) = ∅.
Proof.
  intros (Hne & Hall & Hcolon & Hdot & Hhash)%is_name_inv.
  unfold _extract_selector_components, sub. cbn [classes ids].
  rewrite !sub_pseudo_no_colon
    by (simpl; by rewrite Hcolon).
  unfold re_class, re_id. rewrite !findall_marked_name by done.
  unfold findall. rewrite !findall_no_marker
    by (simpl; by rewrite ?Hdot, ?Hhash).
  split_and!; try done; simpl; apply (right_id_L ∅ (∪)).
Qed.

(** The same for the name [nav-bar_2]. *)
Lemma decompose_class_or_id_selector_witness :
  classes (_extract_selector_components ".nav-bar_2") = {["nav-bar_2"]} ∧
  ids (_extract_selector_components ".nav-bar_2") = ∅ ∧
  ids (_extract_selector_components "#nav-bar_2") = {["nav-bar_2"]} ∧
  classes (_extract_selector_components "#nav-bar_2") = ∅.
Proof. apply (decompose_class_or_id_selector "nav-bar_2"). reflexivity. Defined.

(** X18: a class selector whose class occurs in the markup is never
    reported unused, and neither is an id selector whose id occurs in the
    markup. *)
Theorem used_class_or_id_selector_not_reported (st : analyzer) (name : string) :
  is_name name = true →
  (name ∈ html_classes st →
     String "." name ∉ u_selector <$> find_unused_selectors st) ∧
  (name ∈ html_ids st →
     String "#" name ∉ u_selector <$> find_unused_selectors st).
Proof.
  intros Hname.
  destruct (decompose_class_or_id_selector_aux name Hname) as (Hc & Hi).
  split; intros Hused (e & Hsel & He)%list_elem_of_fmap;
    apply elem_of_unused_of in He as (_ & Hcomp & Hun);
    apply is_unused_true in Hun as (_ & Hcs & His & _);
    rewrite Hcomp, <- Hsel in Hcs, His.
  - apply (Hcs name); [| done]. rewrite Hc. by apply elem_of_singleton.
  - apply (His name); [| done]. rewrite Hi. by apply elem_of_singleton.
Qed.

(** The same for the class [card] of the markup. *)
Lemma used_class_or_id_selector_not_reported_witness :
  "card" ∈ html_classes
             (parse_css_files [StyleRule "a.css" ".card" "color: red"]
                (Analyzer {["card"]} ∅ ∅ [] [])) ∧
  ".card" ∉ u_selector <$>
    find_unused_selectors
      (parse_css_files [StyleRule "a.css" ".card" "color: red"]
         (Analyzer {["card"]} ∅ ∅ [] [])).
Proof.
  assert ("card" ∈ html_classes
                     (parse_css_files [StyleRule "a.css" ".card" "color: red"]
                        (Analyzer {["card"]} ∅ ∅ [] []))) as Hin
    by (simpl; by apply elem_of_singleton).
  split; [exact Hin |].
  exact (proj1 (used_class_or_id_selector_not_reported
                  (parse_css_files [StyleRule "a.css" ".card" "color: red"]
                     (Analyzer {["card"]} ∅ ∅ [] [])) "card" eq_refl) Hin).
Defined.

(** *** Selectors made of one tag name *)

Lemma lower_or_digit_word c :
  Chars.is_lower_or_digit c = true → Chars.is_word c = true.
Proof.
  unfold Chars.is_lower_or_digit, Chars.is_word.
  destruct (Chars.is_lower c), (Chars.is_digit c), (Chars.is_upper c); done.
Qed.

Lemma lower_word c : Chars.is_lower c = true → Chars.is_word c = true.
Proof. unfold Chars.is_word. by intros ->. Qed.

(** Lower-case letters and digits are not upper-case letters and are none
    of the three marker characters. *)
Lemma lower_or_digit_plain c :
  Chars.is_lower_or_digit c = true →
  Chars.is_upper c = false ∧
  bool_decide (c = ":"%char) = false ∧
  bool_decide (c = "."%char) = false ∧
  bool_decide (c = "#"%char) = false.
Proof.
  destruct c as [[] [] [] [] [] [] [] []]; vm_compute; intros H;
    first [discriminate H | by split_and!].
Qed.

Lemma lower_or_digit_text t :
  all_chars Chars.is_lower_or_digit t = true →
  Str.lower t = t ∧ has_char ":" t = false ∧ has_char "." t = false
  ∧ has_char "#" t = false.
Proof.
  induction t as [|c t IH]; [done |]. simpl.
  intros [Hc Ht]%andb_true_iff. destruct (IH Ht) as (-> & -> & -> & ->).
  destruct (lower_or_digit_plain c Hc) as (Hup & -> & -> & ->).
  unfold Chars.lower_char. by rewrite Hup.
Qed.

Lemma is_tag_name_inv t :
  is_tag_name t = true →
  ∃ c t', t = String c t' ∧ Chars.is_lower c = true ∧
          all_chars Chars.is_lower_or_digit t' = true ∧
          all_chars Chars.is_lower_or_digit t = true.
Proof.
  destruct t as [|c t']; [done |]. simpl. intros [Hc Ht]%andb_true_iff.
  exists c, t'. split_and!; try done. unfold Chars.is_lower_or_digit at 1.
  by rewrite Hc, Ht.
Qed.

Lemma last_char_word c t :
  Chars.is_word c = true → all_chars Chars.is_lower_or_digit t = true →
  ∃ c', last_char (Some c) t = Some c' ∧ Chars.is_word c' = true.
Proof.
  revert c. induction t as [|d t IH]; intros c Hc; simpl; [by eauto |].
  intros [Hd Ht]%andb_true_iff. apply IH; [| done]. by apply lower_or_digit_word.
Qed.

Lemma match_here_tag_name c t :
  Chars.is_lower c = true → all_chars Chars.is_lower_or_digit t = true →
  match_here re_tag None (String c t)
  = Some (S (String.length t), Some (String c t)).
Proof.
  intros Hc Ht. unfold match_here, re_tag. cbn [run].
  unfold word_before, word_after, step_char. cbn [prev rest grp].
  rewrite (lower_word c Hc), Hc. cbn [xorb prev rest grp].
  apply star_from_all; [done |]. cbn [prev rest grp].
  destruct (last_char_word c t (lower_word c Hc) Ht) as (c' & -> & ->).
  cbn [xorb]. change (String.length EmptyString) with 0.
  rewrite !Nat.sub_0_r. by rewrite (substring_full (String c t)).
Qed.

Lemma match_here_tag_end pv : match_here re_tag pv EmptyString = None.
Proof.
  unfold match_here, re_tag. cbn [run]. by destruct (xorb _ _).
Qed.

Lemma findall_tag_name t :
  is_tag_name t = true → findall re_tag t = [t].
Proof.
  intros (c & t' & -> & Hc & Ht & _)%is_tag_name_inv.
  unfold findall. cbn [findall_from]. rewrite match_here_tag_name by done.
  unfold reported. cbn [re_tag has_group orb snd fst].
  replace (S (String.length t') - 1) with (String.length t') by lia.
  rewrite findall_skip_all; [done |]. apply match_here_tag_end.
Qed.

Lemma decompose_tag_selector_aux (t : string) :
  is_tag_name t = true →
  _extract_selector_components t = Components ∅ ∅ ({[t]} ∖ keywords).
Proof.
  intros Htag. pose proof Htag as (c & t' & Heq & Hc & Ht' & Ht)%is_tag_name_inv.
  destruct (lower_or_digit_text t Ht) as (Hlow & Hcolon & Hdot & Hhash).
  unfold _extract_selector_components, sub.
  rewrite sub_pseudo_no_colon by done. rewrite Hlow.
  unfold re_class, re_id, findall at 1 2. rewrite !findall_no_marker by done.
  rewrite findall_tag_name by done. f_equal. simpl.
  by rewrite (right_id_L ∅ (∪)).
Qed.

Lemma singleton_minus_keywords (t : string) :
  (t ∉ keywords → ({[t]} ∖ keywords : gset string) = {[t]}) ∧
  (t ∈ keywords → ({[t]} ∖ keywords : gset string) = ∅).
Proof.
  split; intros Hkw; apply set_eq; intros x;
    rewrite elem_of_difference, elem_of_singleton.
  - split; [tauto | by intros ->].
  - split; [intros [-> ?]; done | by intros ?%not_elem_of_empty].
Qed.

(** X19: a selector that is one tag name (a lower-case letter followed by
    lower-case letters and digits) decomposes to no class, no id and that
    one tag, unless the name is one of the four keywords, in which case
    the tag set is empty too. *)
Theorem decompose_tag_selector (t : string) :
  is_tag_name t = true →
  _extract_selector_components t = Components ∅ ∅ ({[t]} ∖ keywords) ∧
  (t ∉ keywords → _extract_selector_components t = Components ∅ ∅ {[t]}) ∧
  (t ∈ keywords → _extract_selector_components t = Components ∅ ∅ ∅).
Proof.
  intros Htag. rewrite (decompose_tag_selector_aux t Htag). split_and!; [done | |].
  - intros Hkw. f_equal. by apply singleton_minus_keywords.
  - intros Hkw. f_equal. by apply singleton_minus_keywords.
Qed.

(** The same for the tag [h1]. *)
Lemma decompose_tag_selector_witness :
  _extract_selector_components "h1" = Components ∅ ∅ ({["h1"]} ∖ keywords) ∧
  ("h1" ∉ keywords → _extract_selector_components "h1" = Components ∅ ∅ {["h1"]}) ∧
  ("h1" ∈ keywords → _extract_selector_components "h1" = Components ∅ ∅ ∅).
Proof. apply (decompose_tag_selector "h1"). reflexivity. Defined.

(** X20: a rule of the index whose selector is one tag name other than the
    four keywords is reported unused exactly when the markup has no such
    tag. *)
Theorem tag_selector_unused_iff_tag_absent
    (st : analyzer) (t : string) (files : list string) :
  is_tag_name t = true → t ∉ keywords → (t, files) ∈ css_selectors st →
  Unused t files (Components ∅ ∅ {[t]}) ∈ find_unused_selectors st
  ↔ t ∉ html_tags st.
Proof.
  intros Htag Hkw Hin.
  assert (_extract_selector_components t = Components ∅ ∅ {[t]}) as Hdec.
  { rewrite (decompose_tag_selector_aux t Htag). f_equal.
    by apply singleton_minus_keywords. }
  unfold find_unused_selectors. rewrite elem_of_unused_of, is_unused_true.
  cbn [u_selector u_files u_components classes ids tags]. split.
  - intros (_ & _ & _ & _ & _ & Hts). apply Hts. by apply elem_of_singleton.
  - intros Habs. split_and!.
    + done.
    + done.
    + right. right. apply non_empty_singleton_L.
    + intros x Hx. by apply not_elem_of_empty in Hx.
    + intros x Hx. by apply not_elem_of_empty in Hx.
    + by intros x ->%elem_of_singleton.
Qed.

(** The same for the tag [p], absent from the markup. *)
Lemma tag_selector_unused_iff_tag_absent_witness :
  Unused "p" ["a.css"] (Components ∅ ∅ {["p"]})
    ∈ find_unused_selectors
        (parse_css_files [StyleRule "a.css" "p" "margin: 0"]
           (Analyzer ∅ ∅ {["div"]} [] []))
  ↔ "p" ∉ html_tags
            (parse_css_files [StyleRule "a.css" "p" "margin: 0"]
               (Analyzer ∅ ∅ {["div"]} [] [])).
Proof.
  apply (tag_selector_unused_iff_tag_absent
           (parse_css_files [StyleRule "a.css" "p" "margin: 0"]
              (Analyzer ∅ ∅ {["div"]} [] [])) "p" ["a.css"]).
  - reflexivity.
  - unfold keywords. rewrite !elem_of_union, !elem_of_singleton.
    intros [[[H | H] | H] | H]; discriminate H.
  - simpl. left.
Defined.

End Extraction.

(* ===================================================================== *)
(** ** The markup facts and the whole analysis *)
(* ===================================================================== *)

Section Markup.

Import Analyzer.
Local Open Scope nat_scope.
Implicit Types (st : analyzer) (doc : soup) (files : list (option soup)).

Lemma elem_of_foldl_add_tag x ts doc :
  x ∈ foldl add_tag ts doc ↔ x ∈ ts ∨ ∃ e, e ∈ doc ∧ name e = x.
Proof.
  revert ts. induction doc as [|e doc IH]; intros ts; simpl.
  - split; [by left | intros [? | (? & ?%elem_of_nil & _)]; done].
  - rewrite IH. unfold add_tag. rewrite elem_of_union, elem_of_singleton. split.
    + intros [[? | ->] | (e' & ? & ?)]; [by left | right | right].
      * exists e. split; [left | done].
      * exists e'. split; [by right | done].
    + intros [? | (e' & [-> | ?]%elem_of_cons & Hn)]; [by auto | by auto |].
      right. by exists e'.
Qed.

Lemma elem_of_foldl_add_id x ns doc :
  x ∈ foldl add_id ns (find_all_id doc)
  ↔ x ∈ ns ∨ ∃ e, e ∈ doc ∧ id_attr e = Some x.
Proof.
  revert ns. unfold find_all_id. induction doc as [|e doc IH]; intros ns.
  - simpl. split; [by left | intros [? | (? & ?%elem_of_nil & _)]; done].
  - rewrite filter_cons. destruct (decide (is_Some (id_attr e))) as [[i Hi]|Hno].
    + simpl. rewrite IH. unfold add_id. rewrite Hi, elem_of_union, elem_of_singleton.
      split.
      * intros [[? | ->] | (e' & ? & ?)]; [by left | right | right].
        -- exists e. split; [left | done].
        -- exists e'. split; [by right | done].
      * intros [? | (e' & [-> | ?]%elem_of_cons & Hn)]; [by auto | |].
        -- rewrite Hi in Hn. injection Hn as ->. by auto.
        -- right. by exists e'.
    + rewrite IH. split.
      * intros [? | (e' & ? & ?)]; [by left | right].
        exists e'. split; [by right | done].
      * intros [? | (e' & [-> | ?]%elem_of_cons & Hn)]; [by left | |].
        -- exfalso. apply Hno. by eexists.
        -- right. by exists e'.
Qed.

Lemma elem_of_add_classes x cs e :
  is_Some (class_attr e) →
  x ∈ add_classes cs e ↔ x ∈ cs ∨ has_class e x.
Proof.
  intros [v Hv]. unfold add_classes, has_class. rewrite Hv. simpl.
  destruct v as [tokens | value].
  - rewrite elem_of_union, elem_of_list_to_set. split.
    + intros [? | ?]; [by left | right; right; by eauto].
    + intros [? | [? | (l & [= <-] & ?)]]; [by left | done | by right].
  - rewrite elem_of_union, elem_of_singleton. split.
    + intros [? | ->]; [by left | right; by left].
    + intros [? | [[= ->] | (l & ? & _)]]; [by left | by right | done].
Qed.

Lemma elem_of_foldl_add_classes x cs doc :
  x ∈ foldl add_classes cs (find_all_class doc)
  ↔ x ∈ cs ∨ ∃ e, e ∈ doc ∧ has_class e x.
Proof.
  revert cs. unfold find_all_class. induction doc as [|e doc IH]; intros cs.
  - simpl. split; [by left | intros [? | (? & ?%elem_of_nil & _)]; done].
  - rewrite filter_cons. destruct (decide (is_Some (class_attr e))) as [Hsome|Hno].
    + simpl. rewrite IH, (elem_of_add_classes _ _ _ Hsome). split.
      * intros [[? | ?] | (e' & ? & ?)]; [by left | right | right].
        -- exists e. split; [left | done].
        -- exists e'. split; [by right | done].
      * intros [? | (e' & [-> | ?]%elem_of_cons & Hn)]; [by auto | by auto |].
        right. by exists e'.
    + rewrite IH. split.
      * intros [? | (e' & ? & ?)]; [by left | right].
        exists e'. split; [by right | done].
      * intros [? | (e' & [-> | ?]%elem_of_cons & Hn)]; [by left | |].
        -- exfalso. apply Hno. destruct Hn as [Hn | (l & Hn & _)]; by eexists.
        -- right. by exists e'.
Qed.

Lemma parse_html_files_cons o files st :
  parse_html_files (o :: files) st = parse_html_files files (parse_html_file st o).
Proof. done. Qed.

Lemma parse_html_files_tables files st :
  css_selectors (parse_html_files files st) = css_selectors st ∧
  duplicate_rules (parse_html_files files st) = duplicate_rules st.
Proof.
  revert st. induction files as [|o files IH]; intros st; [done |].
  rewrite parse_html_files_cons. destruct (IH (parse_html_file st o)) as [-> ->].
  by destruct o.
Qed.

Lemma parse_html_files_facts files st x :
  (x ∈ html_classes (parse_html_files files st)
   ↔ x ∈ html_classes st ∨ ∃ doc e, Some doc ∈ files ∧ e ∈ doc ∧ has_class e x) ∧
  (x ∈ html_ids (parse_html_files files st)
   ↔ x ∈ html_ids st ∨ ∃ doc e, Some doc ∈ files ∧ e ∈ doc ∧ id_attr e = Some x) ∧
  (x ∈ html_tags (parse_html_files files st)
   ↔ x ∈ html_tags st ∨ ∃ doc e, Some doc ∈ files ∧ e ∈ doc ∧ name e = x).
Proof.
  revert st. induction files as [|o files IH]; intros st.
  - simpl. split_and!; (split; [by left |]);
      intros [? | (? & ? & ?%elem_of_nil & _)]; done.
  - rewrite parse_html_files_cons.
    destruct (IH (parse_html_file st o)) as (-> & -> & ->). clear IH.
    destruct o as [doc|]; simpl.
    + rewrite elem_of_foldl_add_classes, elem_of_foldl_add_id, elem_of_foldl_add_tag.
      split_and!; split.
      all: try (intros [[? | (e & ? & ?)] | (d & e & ? & ? & ?)];
                [by left | right; exists doc, e; split_and!; [left | done | done]
                | right; exists d, e; split_and!; [by right | done | done]]).
      all: intros [? | (d & e & [[= ->] | ?]%elem_of_cons & ? & ?)];
        [by auto | left; right; by exists e | right; by exists d, e].
    + split_and!; split.
      all: try (intros [? | (d & e & ? & ? & ?)];
                [by left | right; exists d, e; split_and!; [by right | done | done]]).
      all: intros [? | (d & e & [? | ?]%elem_of_cons & ? & ?)];
        [by left | done | right; by exists d, e].
Qed.

Lemma filter_not_in_nil (l : list string) :
  filter (λ y, y ∉ (@nil string)) l = l.
Proof.
  induction l as [|x l IH]; [done |].
  rewrite filter_cons, decide_True by apply not_elem_of_nil. by rewrite IH.
Qed.

Lemma unused_of_antitone st st' items :
  html_classes st' ⊆ html_classes st → html_ids st' ⊆ html_ids st →
  html_tags st' ⊆ html_tags st →
  unused_of st items ⊆ unused_of st' items.
Proof.
  intros Hc Hi Ht e. rewrite !elem_of_unused_of, !is_unused_true.
  intros (Hin & Hcomp & Hne & Hcs & His & Hts). split_and!; try done.
  - intros x Hx Hf. by apply (Hcs x), Hc.
  - intros x Hx Hf. by apply (His x), Hi.
  - intros x Hx Hf. by apply (Hts x), Ht.
Qed.

Lemma dup_selectors_of_recorded (items : table string) :
  2 * length (dup_selectors_of items) ≤ recorded items.
Proof.
  unfold recorded. induction items as [|[sel fs] items IH]; [done |].
  cbn [dup_selectors_of]. csimpl.
  destruct (1 <? length fs)%nat eqn:Hlen; simpl; [| lia].
  apply Nat.ltb_lt in Hlen. lia.
Qed.

Lemma dup_rules_of_recorded (items : table (string * string)) ds :
  dup_rules_of items = Some ds → 2 * length ds ≤ recorded items.
Proof.
  unfold recorded. revert ds. induction items as [|[h locs] items IH]; intros ds.
  - by intros [= <-].
  - cbn [dup_rules_of]. csimpl. destruct (1 <? length locs)%nat eqn:Hlen.
    + apply Nat.ltb_lt in Hlen.
      destruct (Str.split "|" h !! 0) as [sel|]; [| done].
      destruct (dup_rules_of items) as [ds'|]; [| done]. simpl.
      intros [= <-]. specialize (IH ds' eq_refl). simpl. lia.
    + intros Hds. specialize (IH ds Hds). lia.
Qed.

Lemma unused_of_length st (items : table string) :
  length (unused_of st items) ≤ length items.
Proof.
  induction items as [|[sel fs] items IH]; [done |]. simpl.
  destruct (is_unused _ _); simpl; lia.
Qed.

(** X21: after the markup files are read, a name is in a fact set exactly
    when it was there before or some tag of a parsed file contributes it:
    as its tag name, as its id, or as its class text or one of its class
    tokens.  Files that could not be read or parsed contribute nothing,
    and the two rule tables are left as they were. *)
Theorem parse_html_files_collects
    (files : list (option soup)) (st : analyzer) (x : string) :
  (x ∈ html_classes (parse_html_files files st)
   ↔ x ∈ html_classes st ∨ ∃ doc e, Some doc ∈ files ∧ e ∈ doc ∧ has_class e x) ∧
  (x ∈ html_ids (parse_html_files files st)
   ↔ x ∈ html_ids st ∨ ∃ doc e, Some doc ∈ files ∧ e ∈ doc ∧ id_attr e = Some x) ∧
  (x ∈ html_tags (parse_html_files files st)
   ↔ x ∈ html_tags st ∨ ∃ doc e, Some doc ∈ files ∧ e ∈ doc ∧ name e = x) ∧
  css_selectors (parse_html_files files st) = css_selectors st ∧
  duplicate_rules (parse_html_files files st) = duplicate_rules st.
Proof.
  destruct (parse_html_files_facts files st x) as (H1 & H2 & H3).
  destruct (parse_html_files_tables files st) as (H4 & H5). done.
Qed.

(** X22: the facts collected do not depend on the order of the markup
    files nor on a file being read more than once: two lists with the same
    file outcomes give the same three fact sets. *)
Theorem parse_html_files_order_irrelevant
    (files files' : list (option soup)) (st : analyzer) :
  (∀ o, o ∈ files ↔ o ∈ files') →
  html_classes (parse_html_files files st) = html_classes (parse_html_files files' st) ∧
  html_ids (parse_html_files files st) = html_ids (parse_html_files files' st) ∧
  html_tags (parse_html_files files st) = html_tags (parse_html_files files' st).
Proof.
  intros Hsame. split_and!; apply set_eq; intros x.
  - destruct (parse_html_files_facts files st x) as (-> & _ & _).
    destruct (parse_html_files_facts files' st x) as (-> & _ & _).
    split; (intros [? | (d & e & ? & ? & ?)]; [by left | right]);
      exists d, e; split_and!; try done; by apply Hsame.
  - destruct (parse_html_files_facts files st x) as (_ & -> & _).
    destruct (parse_html_files_facts files' st x) as (_ & -> & _).
    split; (intros [? | (d & e & ? & ? & ?)]; [by left | right]);
      exists d, e; split_and!; try done; by apply Hsame.
  - destruct (parse_html_files_facts files st x) as (_ & _ & ->).
    destruct (parse_html_files_facts files' st x) as (_ & _ & ->).
    split; (intros [? | (d & e & ? & ? & ?)]; [by left | right]);
      exists d, e; split_and!; try done; by apply Hsame.
Qed.

(** The same for two files read in either order, one of them twice. *)
Lemma parse_html_files_order_irrelevant_witness :
  html_classes
    (parse_html_files
       [Some [Element "div" (Some (ClassList ["card"; "big"])) None];
        Some [Element "p" None (Some "intro")]] init)
  = html_classes
      (parse_html_files
         [Some [Element "p" None (Some "intro")];
          Some [Element "div" (Some (ClassList ["card"; "big"])) None];
          Some [Element "p" None (Some "intro")]] init) ∧
  html_ids
    (parse_html_files
       [Some [Element "div" (Some (ClassList ["card"; "big"])) None];
        Some [Element "p" None (Some "intro")]] init)
  = html_ids
      (parse_html_files
         [Some [Element "p" None (Some "intro")];
          Some [Element "div" (Some (ClassList ["card"; "big"])) None];
          Some [Element "p" None (Some "intro")]] init) ∧
  html_tags
    (parse_html_files
       [Some [Element "div" (Some (ClassList ["card"; "big"])) None];
        Some [Element "p" None (Some "intro")]] init)
  = html_tags
      (parse_html_files
         [Some [Element "p" None (Some "intro")];
          Some [Element "div" (Some (ClassList ["card"; "big"])) None];
          Some [Element "p" None (Some "intro")]] init).
Proof.
  apply (parse_html_files_order_irrelevant
           [Some [Element "div" (Some (ClassList ["card"; "big"])) None];
            Some [Element "p" None (Some "intro")]]
           [Some [Element "p" None (Some "intro")];
            Some [Element "div" (Some (ClassList ["card"; "big"])) None];
            Some [Element "p" None (Some "intro")]] init).
  intros o. rewrite !elem_of_cons. split.
  - intros [-> | [-> | Hnil]]; [by auto | by auto | by apply elem_of_nil in Hnil].
  - intros [-> | [-> | [-> | Hnil]]];
      [by auto | by auto | by auto | by apply elem_of_nil in Hnil].
Defined.

(** X23: reading more markup never adds a selector to the unused report:
    every entry reported after further files are read was reported
    before. *)
Theorem more_markup_fewer_unused (files : list (option soup)) (st : analyzer) :
  find_unused_selectors (parse_html_files files st) ⊆ find_unused_selectors st.
Proof.
  unfold find_unused_selectors.
  destruct (parse_html_files_tables files st) as [-> _].
  apply unused_of_antitone; intros x Hx.
  - destruct (parse_html_files_facts files st x) as (-> & _ & _). by left.
  - destruct (parse_html_files_facts files st x) as (_ & -> & _). by left.
  - destruct (parse_html_files_facts files st x) as (_ & _ & ->). by left.
Qed.

Lemma parse_css_files_app rules1 rules2 st :
  parse_css_files (rules1 ++ rules2) st
  = parse_css_files rules2 (parse_css_files rules1 st).
Proof. unfold parse_css_files. apply foldl_app. Qed.

Lemma parse_sheet_flat file sheet st :
  foldl (parse_sheet_rule file) st sheet
  = parse_css_files (style_rules_of_sheet file sheet) st.
Proof.
  revert st. induction sheet as [|r sheet IH]; intros st; [done |].
  simpl. rewrite IH. by destruct r.
Qed.

(** X25: with no markup facts at all every selector of the index that has
    at least one class, id or tag is reported unused, and only those. *)
Theorem no_facts_everything_unused
    (index : table string) (rules : table (string * string)) (e : unused_entry) :
  e ∈ find_unused_selectors (Analyzer ∅ ∅ ∅ index rules)
  ↔ (u_selector e, u_files e) ∈ index ∧
    u_components e = _extract_selector_components (u_selector e) ∧
    has_components (u_components e) = true.
Proof.
  unfold find_unused_selectors. cbn [css_selectors].
  rewrite elem_of_unused_of, is_unused_true, has_components_true.
  cbn [html_classes html_ids html_tags]. split.
  - intros (? & ? & ? & _). done.
  - intros (? & ? & ?). split_and!; try done; intros x _; apply not_elem_of_empty.
Qed.

Lemma parse_css_sheets_flat_aux
    (files : list (string * option (list sheet_rule))) (st : analyzer) :
  parse_css_sheets files st = parse_css_files (style_rules_of files) st.
Proof.
  revert st. induction files as [|[file outcome] files IH]; intros st; [done |].
  unfold parse_css_sheets, style_rules_of in *. cbn [foldl fmap list_fmap concat].
  rewrite IH, parse_css_files_app. f_equal.
  unfold parse_css_file. cbn [fst snd]. destruct outcome as [sheet|]; [| done].
  apply parse_sheet_flat.
Qed.

(** X26: reading the stylesheet files one by one, skipping the files that
    could not be read or parsed and, within a sheet, the rules that are
    not style rules, leaves the analyzer in the state obtained by reading
    the remaining style rules in order, file after file. *)
Theorem parse_css_sheets_flat
    (files : list (string * option (list sheet_rule))) (st : analyzer) :
  parse_css_sheets files st = parse_css_files (style_rules_of files) st.
Proof.
  revert st. induction files as [|[file outcome] files IH]; intros st; [done |].
  unfold parse_css_sheets, style_rules_of in *. cbn [foldl fmap list_fmap concat].
  rewrite IH, parse_css_files_app. f_equal.
  unfold parse_css_file. cbn [fst snd]. destruct outcome as [sheet|]; [| done].
  apply parse_sheet_flat.
Qed.

Lemma parse_html_paths_Some paths st st' :
  parse_html_paths paths st = Some st'
  ↔ forallb openable paths = true ∧
    st' = parse_html_files (outcome_of <$> paths) st.
Proof.
  revert st. induction paths as [|[|o] paths IH]; intros st; simpl.
  - split; [by intros [= <-] | by intros [_ ->]].
  - split; [done | by intros [? _]].
  - rewrite IH. done.
Qed.

Lemma parse_css_paths_Some paths st st' :
  parse_css_paths paths st = Some st'
  ↔ forallb (λ p, openable p.2) paths = true ∧
    st' = parse_css_files (rules_read paths) st.
Proof.
  unfold rules_read. rewrite <- parse_css_sheets_flat_aux.
  revert st. induction paths as [|[file [|o]] paths IH]; intros st; simpl.
  - split; [by intros [= <-] | by intros [_ ->]].
  - split; [done | by intros [? _]].
  - rewrite IH. done.
Qed.

(** X24: [analyze] on a fresh analyzer returns a result exactly when every
    markup path and every stylesheet path of the walk can be opened
    (otherwise the exception of [open] leaves it).  When it returns, its
    [total_css_selectors] is the number of distinct selector texts of the
    style rules read; the unused report and the duplicate-selector report
    have at most that many entries; and twice the length of the
    duplicate-selector report, as of the duplicate-rule report, is at
    most the number of style rules read. *)
Theorem analyze_returns_iff_files_open
    (html : list (opened soup))
    (css : list (string * opened (list sheet_rule))) :
  (is_Some (analyze html css init)
   ↔ forallb openable html = true ∧ forallb (λ p, openable p.2) css = true) ∧
  ∀ st res,
    analyze html css init = Some (st, res) →
    total_css_selectors (result_stats res)
      = length (first_occurrences (selectorText <$> rules_read css)) ∧
    length (unused_selectors res) ≤ total_css_selectors (result_stats res) ∧
    length (duplicate_selectors res) ≤ total_css_selectors (result_stats res) ∧
    2 * length (duplicate_selectors res) ≤ length (rules_read css) ∧
    2 * length (duplicate_rules_found res) ≤ length (rules_read css).
Proof.
  split.
  - unfold analyze. split.
    + intros [[st res] Hsome].
      destruct (parse_html_paths html init) as [st1|] eqn:H1; [| done].
      simpl in Hsome.
      destruct (parse_css_paths css st1) as [st2|] eqn:H2; [| done].
      apply parse_html_paths_Some in H1 as [H1 _].
      apply parse_css_paths_Some in H2 as [H2 _]. done.
    + intros [Hh Hc].
      assert (parse_html_paths html init
              = Some (parse_html_files (outcome_of <$> html) init)) as ->
        by (by apply parse_html_paths_Some).
      simpl.
      assert (parse_css_paths css (parse_html_files (outcome_of <$> html) init)
              = Some (parse_css_files (rules_read css)
                        (parse_html_files (outcome_of <$> html) init))) as ->
        by (by apply parse_css_paths_Some).
      simpl. unfold find_duplicate_rules.
      destruct (dup_rules_of_total
                  (duplicate_rules
                     (parse_css_files (rules_read css)
                        (parse_html_files (outcome_of <$> html) init))))
        as [drs ->].
      simpl. by eexists.
  - intros st res. unfold analyze.
    destruct (parse_html_paths html init) as [st1|] eqn:H1; [| done]. simpl.
    destruct (parse_css_paths css st1) as [st2|] eqn:H2; [| done]. simpl.
    apply parse_html_paths_Some in H1 as [_ ->].
    apply parse_css_paths_Some in H2 as [_ ->].
    set (files := outcome_of <$> html). set (rules := rules_read css).
    destruct (parse_html_files_tables files init) as [Hs1 Hd1].
    destruct (parse_css_files_recorded rules (parse_html_files files init))
      as [Hr1 Hr2].
    rewrite Hs1 in Hr1. rewrite Hd1 in Hr2.
    change (recorded (css_selectors init)) with 0 in Hr1.
    change (recorded (duplicate_rules init)) with 0 in Hr2.
    pose proof (css_selectors_keys rules (parse_html_files files init)) as Hkeys.
    rewrite Hs1 in Hkeys. simpl in Hkeys.
    rewrite filter_not_in_nil in Hkeys.
    generalize dependent (parse_css_files rules (parse_html_files files init)).
    intros st2 Hr1 Hr2 Hkeys.
    unfold find_duplicate_rules.
    destruct (dup_rules_of (duplicate_rules st2)) as [drs|] eqn:Hdrs; [| done].
    simpl. intros [= <- <-].
    cbn [result_stats total_css_selectors unused_selectors duplicate_selectors
           duplicate_rules_found].
    split_and!.
    + by rewrite <- Hkeys, length_fmap.
    + apply unused_of_length.
    + rewrite <- (length_fmap fst (css_selectors st2)).
      rewrite <- (length_fmap ds_selector).
      apply sublist_length, dup_selectors_of_sublist.
    + pose proof (dup_selectors_of_recorded (css_selectors st2)).
      unfold find_duplicate_selectors. lia.
    + pose proof (dup_rules_of_recorded _ _ Hdrs). lia.
Qed.

End Markup.

(* ===================================================================== *)
(** ** Pseudo-class suffixes and the hash of bar-free selectors *)
(* ===================================================================== *)

Section Suffixes.

Import Re Analyzer.
Local Open Scope nat_scope.

Lemma word_or_dash_not_colon c :
  Chars.is_word_or_dash c = true → bool_decide (c = ":"%char) = false.
Proof.
  destruct c as [[] [] [] [] [] [] [] []]; vm_compute; intros H;
    first [discriminate H | reflexivity].
Qed.

Lemma sub_skip_all r repl s pv :
  (∀ pv', match_here r pv' EmptyString = None) →
  sub_from r repl pv s (String.length s) = EmptyString.
Proof.
  intros Hend. revert pv. induction s as [|c s IH]; intros pv; simpl.
  - by rewrite Hend.
  - apply IH.
Qed.

Lemma match_here_pseudo_end pv : match_here re_pseudo pv EmptyString = None.
Proof. done. Qed.

(** The part of the pattern after the colons, on a name that runs to the
    end of the text. *)
Lemma run_pseudo_name {A} pv c n g (k : mstate → option A) x :
  all_chars Chars.is_word_or_dash (String c n) = true →
  k (MState (last_char (Some c) n) EmptyString g) = Some x →
  run (Cat (Plus Chars.is_word_or_dash)
         (Opt (Grp (Cat (Lit "(") (Cat (Star Chars.is_not_rparen) (Lit ")"))))))
    (MState pv (String c n) g) k = Some x.
Proof.
  simpl all_chars. intros [Hc Hn]%andb_true_iff Hk.
  cbn [run]. unfold step_char. cbn [rest prev grp]. rewrite Hc.
  cbn [rest prev grp]. apply star_from_all; [done |].
  cbn [rest prev grp]. done.
Qed.

Lemma run_cat {A} r1 r2 st (k : mstate → option A) :
  run (Cat r1 r2) st k = run r1 st (λ st1, run r2 st1 k).
Proof. done. Qed.

Lemma run_opt {A} r st (k : mstate → option A) :
  run (Opt r) st k = match run r st k with Some x => Some x | None => k st end.
Proof. done. Qed.

Lemma run_lit_hit {A} c pv s g (k : mstate → option A) :
  run (Lit c) (MState pv (String c s) g) k = k (MState (Some c) s g).
Proof.
  cbn [run]. unfold step_char, Chars.is_char. cbn [rest grp].
  by rewrite bool_decide_eq_true_2.
Qed.

Lemma run_lit_miss {A} c c' pv s g (k : mstate → option A) :
  bool_decide (c' = c) = false →
  run (Lit c) (MState pv (String c' s) g) k = None.
Proof.
  intros Hc. cbn [run]. unfold step_char, Chars.is_char. cbn [rest grp].
  by rewrite Hc.
Qed.

Lemma match_here_pseudo_single pv name :
  name ≠ EmptyString → all_chars Chars.is_word_or_dash name = true →
  match_here re_pseudo pv (String ":" name) = Some (S (String.length name), None).
Proof.
  intros Hne Hall. destruct name as [|c n]; [done |].
  pose proof Hall as Hall'. simpl in Hall'.
  apply andb_true_iff in Hall' as [Hc Hn].
  unfold match_here, re_pseudo.
  rewrite run_cat, run_lit_hit, run_cat, run_opt.
  rewrite (run_lit_miss _ _ _ _ _ _ (word_or_dash_not_colon c Hc)).
  apply run_pseudo_name; [done |].
  cbn [rest grp]. change (String.length EmptyString) with 0.
  by rewrite Nat.sub_0_r.
Qed.

Lemma match_here_pseudo_double pv name :
  name ≠ EmptyString → all_chars Chars.is_word_or_dash name = true →
  match_here re_pseudo pv (String ":" (String ":" name))
  = Some (S (S (String.length name)), None).
Proof.
  intros Hne Hall. destruct name as [|c n]; [done |].
  unfold match_here, re_pseudo.
  rewrite run_cat, run_lit_hit, run_cat, run_opt, run_lit_hit.
  rewrite (run_pseudo_name _ c n None _
             (S (S (String.length (String c n))), None) Hall); [done |].
  cbn [rest grp]. change (String.length EmptyString) with 0.
  by rewrite Nat.sub_0_r.
Qed.

Lemma sub_pseudo_suffix t name pv :
  has_char ":" t = false →
  name ≠ EmptyString → all_chars Chars.is_word_or_dash name = true →
  sub_from re_pseudo "" pv (t +:+ String ":" name) 0 = t ∧
  sub_from re_pseudo "" pv (t +:+ String ":" (String ":" name)) 0 = t.
Proof.
  intros Ht Hne Hall. revert pv. induction t as [|c t IH]; intros pv.
  - change (sub_from re_pseudo "" pv (String ":" name) 0 = EmptyString ∧
            sub_from re_pseudo "" pv (String ":" (String ":" name)) 0 = EmptyString).
    cbn [sub_from]. rewrite match_here_pseudo_single, match_here_pseudo_double by done.
    split.
    + change (sub_from re_pseudo "" (Some ":"%char) name (String.length name)
              = EmptyString).
      apply sub_skip_all, match_here_pseudo_end.
    + change (sub_from re_pseudo "" (Some ":"%char) (String ":" name)
                (String.length (String ":" name)) = EmptyString).
      apply sub_skip_all, match_here_pseudo_end.
  - simpl in Ht. apply orb_false_iff in Ht as [Hc Ht].
    change (sub_from re_pseudo "" pv (String c (t +:+ String ":" name)) 0
            = String c t ∧
            sub_from re_pseudo "" pv
              (String c (t +:+ String ":" (String ":" name))) 0 = String c t).
    cbn [sub_from].
    assert (∀ s, match_here re_pseudo pv (String c s) = None) as Hno.
    { intros s. unfold match_here, re_pseudo. cbn [run step_char rest].
      unfold Chars.is_char. by rewrite Hc. }
    rewrite !Hno. destruct (IH Ht (Some c)) as [-> ->]. done.
Qed.

(** X27: for two selectors without a bar, the hashes of two rules are
    equal exactly when the selector texts are equal and the declaration
    texts are equal after normalization. *)
Theorem hash_rule_injective_without_bar (sel1 sel2 d1 d2 : string) :
  has_char "|" sel1 = false → has_char "|" sel2 = false →
  _hash_rule sel1 d1 = _hash_rule sel2 d2
  ↔ sel1 = sel2 ∧ normalize d1 = normalize d2.
Proof.
  intros H1 H2. split.
  - by apply hash_rule_inj.
  - intros [-> Hn]. unfold _hash_rule. by rewrite Hn.
Qed.

(** The same for two class selectors. *)
Lemma hash_rule_injective_without_bar_witness :
  _hash_rule ".a" "color:  red" = _hash_rule ".a" "color: red"
  ↔ ".a" = ".a" ∧ normalize "color:  red" = normalize "color: red".
Proof.
  apply (hash_rule_injective_without_bar ".a" ".a" "color:  red" "color: red");
    reflexivity.
Defined.

(** X28: appending one pseudo-class ([:name]) or one pseudo-element
    ([::name]) to a selector text without colon does not change what the
    selector decomposes to. *)
Theorem decompose_ignores_pseudo_suffix (selector name : string) :
  has_char ":" selector = false →
  name ≠ EmptyString → all_chars Chars.is_word_or_dash name = true →
  _extract_selector_components (selector +:+ String ":" name)
  = _extract_selector_components selector ∧
  _extract_selector_components (selector +:+ String ":" (String ":" name))
  = _extract_selector_components selector.
Proof.
  intros Hsel Hne Hall. unfold _extract_selector_components, sub.
  destruct (sub_pseudo_suffix selector name None Hsel Hne Hall) as [-> ->].
  by rewrite sub_pseudo_no_colon.
Qed.

(** The same for [a.nav] followed by [hover] and by [first-line]. *)
Lemma decompose_ignores_pseudo_suffix_witness :
  _extract_selector_components ("a.nav" +:+ ":first-line")
  = _extract_selector_components "a.nav" ∧
  _extract_selector_components ("a.nav" +:+ "::first-line")
  = _extract_selector_components "a.nav".
Proof.
  apply (decompose_ignores_pseudo_suffix "a.nav" "first-line").
  - reflexivity.
  - discriminate.
  - reflexivity.
Defined.

End Suffixes.

(* ===================================================================== *)
(** ** When two rules share a hash *)
(* ===================================================================== *)

Section RuleIdentity.

Import Analyzer.
Local Open Scope nat_scope.

Lemma append_assoc (a b c : string) : (a +:+ b) +:+ c = a +:+ b +:+ c.
Proof.
  induction a as [|x a IH]; [done |].
  change (String x ((a +:+ b) +:+ c) = String x (a +:+ b +:+ c)).
  by rewrite IH.
Qed.

Lemma strip_prefix_Some p s x : strip_prefix p s = Some x ↔ s = p +:+ x.
Proof.
  revert s. induction p as [|a p IH]; intros s; simpl.
  - split; [by intros [= ->] | by intros ->].
  - destruct s as [|b s]; [done |]. case_bool_decide as Hab.
    + subst b. rewrite IH. split; [by intros -> | by intros [= ->]].
    + split; [done | intros [= -> _]; done].
Qed.

Lemma bar_shift_true s1 n1 s2 n2 :
  bar_shift s1 n1 s2 n2 = true
  ↔ ∃ x, s1 = s2 +:+ "|" +:+ x ∧ n2 = x +:+ "|" +:+ n1.
Proof.
  unfold bar_shift. split.
  - destruct (strip_prefix (s2 +:+ "|") s1) as [x|] eqn:Hx; [| done].
    intros Hn%bool_decide_eq_true. apply strip_prefix_Some in Hx.
    rewrite append_assoc in Hx. by exists x.
  - intros (x & Hs & Hn).
    assert (strip_prefix (s2 +:+ "|") s1 = Some x) as ->
      by (apply strip_prefix_Some; by rewrite append_assoc).
    by apply bool_decide_eq_true.
Qed.


Lemma has_char_bar_join a b : Notions.has_char "|" (a +:+ "|" +:+ b) = true.
Proof.
  induction a as [|c a IH]; [done |].
  change (bool_decide (c = "|"%char)
          || Notions.has_char "|" (a +:+ "|" +:+ b) = true).
  rewrite IH. apply orb_true_r.
Qed.

(** The bar-shift shape needs a bar in the longer selector and a bar in
    the longer declaration text. *)
Lemma bar_shift_needs_bars s1 n1 s2 n2 :
  Notions.has_char "|" s1 = false ∨ Notions.has_char "|" n2 = false →
  bar_shift s1 n1 s2 n2 = false.
Proof.
  intros H. destruct (bar_shift s1 n1 s2 n2) eqn:Hb; [| done].
  apply bar_shift_true in Hb as (x & -> & ->).
  rewrite !has_char_bar_join in H. by destruct H.
Qed.




(** C4, as the claim states it, fails: [font-family: a b] and
    [font-family: ab] differ only by whitespace, yet under one selector
    they get different hashes and are not reported together. *)
Lemma hash_rule_keeps_inner_whitespace :
  _hash_rule ".x" "font-family: a b" ≠ _hash_rule ".x" "font-family: ab" ∧
  find_duplicate_rules
    (parse_css_files
       [StyleRule "a.css" ".x" "font-family: a b";
        StyleRule "b.css" ".x" "font-family: ab"] init) = Some [].
Proof.
  split; [vm_compute; discriminate | vm_compute; reflexivity].
Qed.

Lemma duplicate_rules_of_pair sel f1 f2 d1 d2 :
  (normalize d1 = normalize d2 →
   ∃ e, find_duplicate_rules
          (parse_css_files [StyleRule f1 sel d1; StyleRule f2 sel d2] init)
        = Some [e] ∧
        dr_count e = 2 ∧ dr_locations e = [(f1, sel); (f2, sel)]) ∧
  (normalize d1 ≠ normalize d2 →
   find_duplicate_rules
     (parse_css_files [StyleRule f1 sel d1; StyleRule f2 sel d2] init)
   = Some []).
Proof.
  split; intros Hn; unfold find_duplicate_rules, init;
    rewrite duplicate_rules_pair; unfold rule_key, location;
    cbn [selectorText cssText css_file].
  - rewrite bool_decide_eq_true_2 by (by apply hash_rule_same_selector).
    destruct (split_first "|" (_hash_rule sel d1)) as (p & ps & Hp).
    exists (DupRule p 2 [(f1, sel); (f2, sel)]).
    cbn [dup_rules_of length Nat.ltb Nat.leb]. rewrite Hp. done.
  - rewrite bool_decide_eq_false_2; [done |].
    by rewrite hash_rule_same_selector.
Qed.

(** C4, amended: two rules with the same selector text get the same hash,
    and are reported together by [find_duplicate_rules] with count 2 and
    both locations in input order, exactly when their declaration texts
    are equal once every whitespace run is one space and the ends are
    trimmed.  That is so whenever the texts differ only in the kind and
    length of their whitespace runs (spaces, tabs, line breaks) or in
    whitespace at the ends; whitespace is collapsed, not removed, so
    [font-family: a b] and [font-family: ab] stay apart, as do the two
    orders of the same two declarations. *)
Theorem same_selector_whitespace_policy (sel f1 f2 : string) :
  (∀ d1 d2,
     (_hash_rule sel d1 = _hash_rule sel d2 ↔ normalize d1 = normalize d2) ∧
     (normalize d1 = normalize d2 →
      ∃ e, find_duplicate_rules
             (parse_css_files [StyleRule f1 sel d1; StyleRule f2 sel d2] init)
           = Some [e] ∧
           dr_count e = 2 ∧ dr_locations e = [(f1, sel); (f2, sel)]) ∧
     (normalize d1 ≠ normalize d2 →
      find_duplicate_rules
        (parse_css_files [StyleRule f1 sel d1; StyleRule f2 sel d2] init)
      = Some [])) ∧
  (∀ a w1 w2 b,
     all_chars Chars.is_space w1 = true → w1 ≠ EmptyString →
     all_chars Chars.is_space w2 = true → w2 ≠ EmptyString →
     normalize (a +:+ w1 +:+ b) = normalize (a +:+ w2 +:+ b)) ∧
  (∀ w d w',
     all_chars Chars.is_space w = true → all_chars Chars.is_space w' = true →
     normalize (w +:+ d +:+ w') = normalize d) ∧
  normalize ("color:" +:+ String "009" "red") = normalize "color: red" ∧
  normalize (String "010" "  color:   red" +:+ String "013" (String "010" ""))
    = normalize "color: red" ∧
  normalize "font-family: a b" ≠ normalize "font-family: ab" ∧
  normalize "color: red; margin: 0" ≠ normalize "margin: 0; color: red" ∧
  normalize ("color: red;" +:+ String "010" "margin: 0")
    ≠ normalize ("margin: 0;" +:+ String "010" "color: red") ∧
  normalize "color:red;margin:0" ≠ normalize "margin:0;color:red".
Proof.
  split_and!.
  - intros d1 d2. split; [apply hash_rule_same_selector |].
    apply duplicate_rules_of_pair.
  - intros a w1 w2 b H1 N1 H2 N2. rewrite !normalize_collapse.
    by rewrite (collapse_replace_spaces a w1 w2 b).
  - intros w d w' Hw Hw'.
    rewrite !normalize_collapse, collapse_true_spaces by done.
    by apply rstrip_collapse_trailing.
  - vm_compute. reflexivity.
  - vm_compute. reflexivity.
  - vm_compute. discriminate.
  - vm_compute. discriminate.
  - vm_compute. discriminate.
  - vm_compute. discriminate.
Qed.

End RuleIdentity.
